(** * ConstantEvaluator: evaluator for types of constant expressions

    A shallow embedding of [libsolidity/analysis/ConstantEvaluator.cpp]
    and the properties of its folding rules, its memo table and its
    recursion guard. *)

From stdpp Require Import base option list gmap strings pretty.
From Stdlib Require Import ZArith QArith Lia.

Local Open Scope Z_scope.
Set Warnings "-register-all".

(** ** Exact rational values *)

Module Rational.

(** Modelled from the spec: [rational], the exact rational value
    ([boost::rational] over arbitrary-precision integers; the source only
    uses it).  A signed arbitrary-precision numerator over a positive
    arbitrary-precision denominator, always stored in lowest terms.  On the
    integers, [/] and [%] truncate toward zero ([Z.quot], [Z.rem]) and the
    bitwise operators act as on two's complement ([Z.lor], [Z.land],
    [Z.lxor]). *)
Record rational : Type := mk_rational { numerator : Z; denominator : Z }.

Definition wf (q : rational) : Prop :=
  0 < denominator q ∧ Z.gcd (numerator q) (denominator q) = 1.

(** The representative of [n / d] with a positive denominator and no common
    factor, for [d <> 0]. *)
Definition normalize (n d : Z) : rational :=
  let g := Z.gcd n d in
  if d <? 0 then mk_rational (- (n / g)) (- (d / g))
  else mk_rational (n / g) (d / g).

(** [rational(n)]: the conversion from an integer, implicit where the
    source returns or multiplies by one. *)
Definition of_int (n : Z) : rational := mk_rational n 1.

Definition add (a b : rational) : rational :=
  normalize (numerator a * denominator b + numerator b * denominator a)
            (denominator a * denominator b).

Definition sub (a b : rational) : rational :=
  normalize (numerator a * denominator b - numerator b * denominator a)
            (denominator a * denominator b).

Definition mul (a b : rational) : rational :=
  normalize (numerator a * numerator b) (denominator a * denominator b).

(** [operator/] raises [bad_rational] on a zero divisor: [None] here. *)
Definition div (a b : rational) : option rational :=
  if numerator b =? 0 then None
  else Some (normalize (numerator a * denominator b)
                       (denominator a * numerator b)).

(** [operator==] compares numerators and denominators. *)
Definition eqb (a b : rational) : bool :=
  (numerator a =? numerator b) && (denominator a =? denominator b).

(** The value denoted, as a fraction of the standard library. *)
Definition to_Q (q : rational) : Q := Qmake (numerator q) (Z.to_pos (denominator q)).

(** [operator<<] prints numerator, a slash, denominator. *)
Definition show (q : rational) : string :=
  pretty (numerator q) +:+ "/" +:+ pretty (denominator q).

End Rational.

Export Rational(rational, mk_rational, numerator, denominator).

(** ** Tokens, source locations and diagnostics *)

(** Modelled from the spec: [Token], the operators that can label a unary
    or binary operation node (the enumeration is declared in
    [liblangutil/Token.h], which the source only includes). *)
Inductive Token : Set :=
| Comma | Or | And | BitOr | BitXor | BitAnd | SHL | SAR | SHR
| Add | Sub | Mul | Div | Mod | Exp
| Equal | NotEqual | LessThan | GreaterThan | LessThanOrEqual | GreaterThanOrEqual
| Not | BitNot | Inc | Dec | Delete.

Module TokenTraits.

Definition isCompareOp (op : Token) : bool :=
  match op with
  | Equal | NotEqual | LessThan | GreaterThan
  | LessThanOrEqual | GreaterThanOrEqual => true
  | _ => false
  end.

Definition toString (op : Token) : string :=
  match op with
  | Comma => "," | Or => "||" | And => "&&"
  | BitOr => "|" | BitXor => "^" | BitAnd => "&"
  | SHL => "<<" | SAR => ">>" | SHR => ">>>"
  | Add => "+" | Sub => "-" | Mul => "*" | Div => "/" | Mod => "%" | Exp => "**"
  | Equal => "==" | NotEqual => "!=" | LessThan => "<" | GreaterThan => ">"
  | LessThanOrEqual => "<=" | GreaterThanOrEqual => ">="
  | Not => "!" | BitNot => "~" | Inc => "++" | Dec => "--" | Delete => "delete"
  end.

End TokenTraits.

Record SourceLocation : Set := { loc_start : Z; loc_end : Z }.

(** Modelled from the spec: the diagnostic sink ([langutil::ErrorReporter],
    which the source only includes).  Two severities; every diagnostic
    carries an error code, a source location and a message.  A fatal report
    also raises [FatalError]. *)
Inductive Severity : Set := Recoverable | Fatal.

Record Diagnostic : Set := {
  severity : Severity;
  errorId : N;
  location : SourceLocation;
  message : string
}.

(** ** The type-system capability *)

(** Modelled from the spec: [Type::Category], the type categories the
    evaluator tells apart (declared in [libsolidity/ast/Types.h], which the
    source only includes); every other category is [OtherCategory]. *)
Inductive Category : Set :=
| Integer | RationalNumber | Bool | StringLiteral | OtherCategory.

Global Instance Category_eq_dec : EqDecision Category.
Proof. solve_decision. Defined.

(** Modelled from the spec: [Type], the types of the external type system.
    [RationalNumberType] is the literal-carrying type wrapping an exact
    rational, the only type of category [RationalNumber]; the others stand
    for types of the external registry. *)
Inductive Type_ : Type :=
| RationalNumberType (m_value : rational)
| IntegerType (bits : N) (isSigned : bool)
| BoolType
| StringLiteralType (s : string)
| OtherType (name : string).

(** A [TypePointer] may be null. *)
Abbreviation TypePointer := (option Type_).

Definition category (t : Type_) : Category :=
  match t with
  | RationalNumberType _ => RationalNumber
  | IntegerType _ _ => Integer
  | BoolType => Bool
  | StringLiteralType _ => StringLiteral
  | OtherType _ => OtherCategory
  end.

(** [RationalNumberType::isFractional]. *)
Definition isFractional (q : rational) : bool := negb (denominator q =? 1).

Module TypeProvider.
Definition rationalNumber (q : rational) : Type_ := RationalNumberType q.
Definition boolean : Type_ := BoolType.
End TypeProvider.

(** The operator semantics of the external type system, consumed as an
    opaque capability. *)
Class TypeSystem : Type := {
  unaryOperatorResult : Type_ → Token → TypePointer;
  binaryOperatorResult : Type_ → Token → Type_ → TypePointer;
  toString : Type_ → string
}.

(** ** The evaluator state and its effects *)

Definition NodeId : Set := nat.
Definition DeclId : Set := nat.
Bind Scope nat_scope with NodeId DeclId.

Record TypedValue : Type := {
  sourceType : TypePointer;
  evaluatedValue : TypePointer
}.

(** Calls that leave the evaluator or re-enter it, logged so that how often
    they happen can be stated.  The source keeps no such log, and no
    definition below reads it. *)
Inductive Call : Type :=
| CallEvaluate (node : NodeId)
| CallUnaryOperatorResult (t : Type_) (op : Token)
| CallBinaryOperatorResult (l : Type_) (op : Token) (r : Type_).

(** Modelled from the spec: the members of the evaluator (declared in
    [ConstantEvaluator.h], which the source only includes): the diagnostic
    sink, the memo table keyed by node identity and the recursion-depth
    counter; with them the standard output the source prints to, one entry
    for what each output statement wrote, and the call log. *)
Record ConstantEvaluator : Type := {
  m_errorReporter : list Diagnostic;
  m_evaluations : gmap NodeId TypedValue;
  m_depth : nat;
  cout : list string;
  calls : list Call
}.

Inductive Exception : Set :=
| FatalError | InternalCompilerError | bad_rational | bad_optional_access.

(** How a call ends: it returns, an exception unwinds through it, it
    dereferences a null pointer, or the fuel of the embedding ran out. *)
Inductive Outcome (A : Type) : Type :=
| Returned (a : A)
| Thrown (e : Exception)
| NullDereference
| OutOfFuel.
Arguments Returned {A} a.
Arguments Thrown {A} e.
Arguments NullDereference {A}.
Arguments OutOfFuel {A}.

Definition M (A : Type) : Type := ConstantEvaluator → Outcome A * ConstantEvaluator.

Definition ret {A} (a : A) : M A := λ s, (Returned a, s).

Definition bind {A B} (m : M A) (f : A → M B) : M B := λ s,
  match m s with
  | (Returned a, s') => f a s'
  | (Thrown e, s') => (Thrown e, s')
  | (NullDereference, s') => (NullDereference, s')
  | (OutOfFuel, s') => (OutOfFuel, s')
  end.

Notation "x <- m ;; k" := (bind m (λ x, k))
  (at level 100, m at next level, right associativity).
Notation "m ;; k" := (bind m (λ _, k))
  (at level 100, right associativity).

Definition throw {A} (e : Exception) : M A := λ s, (Thrown e, s).
Definition gets {A} (f : ConstantEvaluator → A) : M A := λ s, (Returned (f s), s).
Definition modify (f : ConstantEvaluator → ConstantEvaluator) : M unit :=
  λ s, (Returned tt, f s).

(** Dereferencing a pointer. *)
Definition deref {A} (p : option A) : M A := λ s,
  match p with Some a => (Returned a, s) | None => (NullDereference, s) end.

(** [std::optional::value]. *)
Definition value_of {A} (o : option A) : M A :=
  match o with Some a => ret a | None => throw bad_optional_access end.

Definition solAssert (b : bool) : M unit :=
  if b then ret tt else throw InternalCompilerError.

(** [ScopeGuard]: [cleanup] runs when the scope is left, by return or by an
    exception. *)
Definition scope_guard {A} (cleanup : ConstantEvaluator → ConstantEvaluator)
    (body : M A) : M A := λ s,
  match body s with
  | (Returned a, s') => (Returned a, cleanup s')
  | (Thrown e, s') => (Thrown e, cleanup s')
  | other => other
  end.

Definition with_errors (f : list Diagnostic → list Diagnostic) (s : ConstantEvaluator) :=
  {| m_errorReporter := f (m_errorReporter s); m_evaluations := m_evaluations s;
     m_depth := m_depth s; cout := cout s; calls := calls s |}.
Definition with_evaluations (f : gmap NodeId TypedValue → gmap NodeId TypedValue)
    (s : ConstantEvaluator) :=
  {| m_errorReporter := m_errorReporter s; m_evaluations := f (m_evaluations s);
     m_depth := m_depth s; cout := cout s; calls := calls s |}.
Definition with_depth (f : nat → nat) (s : ConstantEvaluator) :=
  {| m_errorReporter := m_errorReporter s; m_evaluations := m_evaluations s;
     m_depth := f (m_depth s); cout := cout s; calls := calls s |}.
Definition with_cout (f : list string → list string) (s : ConstantEvaluator) :=
  {| m_errorReporter := m_errorReporter s; m_evaluations := m_evaluations s;
     m_depth := m_depth s; cout := f (cout s); calls := calls s |}.
Definition with_calls (f : list Call → list Call) (s : ConstantEvaluator) :=
  {| m_errorReporter := m_errorReporter s; m_evaluations := m_evaluations s;
     m_depth := m_depth s; cout := cout s; calls := f (calls s) |}.

Definition report (d : Diagnostic) : ConstantEvaluator → ConstantEvaluator :=
  with_errors (λ l, l ++ [d]).

Definition typeError (id : N) (loc : SourceLocation) (msg : string) : M unit :=
  modify (report {| severity := Recoverable; errorId := id; location := loc; message := msg |}).

Definition fatalTypeError (id : N) (loc : SourceLocation) (msg : string) : M unit :=
  modify (report {| severity := Fatal; errorId := id; location := loc; message := msg |}) ;;
  throw FatalError.

Definition printed (line : string) : ConstantEvaluator → ConstantEvaluator :=
  with_cout (λ l, l ++ [line]).
Definition logged (c : Call) : ConstantEvaluator → ConstantEvaluator :=
  with_calls (λ l, l ++ [c]).

Definition print (line : string) : M unit := modify (printed line).
Definition log (c : Call) : M unit := modify (logged c).

Definition endl : string := String (Ascii.ascii_of_nat 10) EmptyString.

(** Dereferencing a pointer inside an output statement
    [cout << a << p->f() << ...]: the operands of [<<] are evaluated from
    left to right, so [written], what the statement has put on the stream up
    to there, is on the stream when a null [p] is dereferenced. *)
Definition deref_after {A} (written : string) (p : option A) : M A :=
  match p with
  | Some a => ret a
  | None => print written ;; deref None
  end.

(** ** [ConstantEvaluator::evaluateBinary] *)

Definition evaluateBinary (_left _right : rational) (_operator : Token)
    (_location : SourceLocation) : M (option rational) :=
  match _operator with
  | BitOr => ret (Some (Rational.of_int (Z.lor (numerator _left) (numerator _right))))
  | BitAnd => ret (Some (Rational.of_int (Z.land (numerator _left) (numerator _right))))
  | BitXor => ret (Some (Rational.of_int (Z.lxor (numerator _left) (numerator _right))))
  | Add => ret (Some (Rational.add _left _right))
  | Sub => ret (Some (Rational.sub _left _right))
  | Mul => ret (Some (Rational.mul _left _right))
  | Div =>
      match Rational.div _left _right with
      | None => throw bad_rational
      | Some fractionalResult =>
          ret (Some (Rational.of_int
                 (Z.quot (numerator fractionalResult) (denominator fractionalResult))))
      end
  | Mod =>
      if Rational.eqb _right (Rational.of_int 0) then
        typeError 1211 _location "Division by 0." ;;
        ret None
      else if (denominator _left =? 1) && (denominator _right =? 1) then
        ret (Some (Rational.of_int (Z.rem (numerator _left) (numerator _right))))
      else
        match Rational.div _left _right with
        | None => throw bad_rational
        | Some tempValue =>
            ret (Some (Rational.sub _left
                   (Rational.mul
                      (Rational.of_int (Z.quot (numerator tempValue) (denominator tempValue)))
                      _right)))
        end
  | _ =>
      print ("TODO: evaluateBinary: " +:+ Rational.show _left +:+ " "
             +:+ TokenTraits.toString _operator +:+ " " +:+ Rational.show _right +:+ endl) ;;
      solAssert false ;;
      ret None
  end.

(** ** The syntax tree *)

(** Modelled from the spec: [Expression], the expression nodes (declared in
    [libsolidity/ast/AST.h], which the source only includes).  A node is
    known by its identity [id]; a literal carries the type
    [TypeProvider::forLiteral] gives it; an identifier carries the resolved
    link to its declaration, if any; [OtherExpression] is every node kind
    the evaluator has no [endVisit] for. *)
Inductive Expression : Type :=
| Literal (id : NodeId) (loc : SourceLocation) (forLiteral : TypePointer)
| UnaryOperation (id : NodeId) (loc : SourceLocation) (op : Token)
    (subExpression : Expression)
| BinaryOperation (id : NodeId) (loc : SourceLocation) (op : Token)
    (leftExpression rightExpression : Expression)
| Identifier (id : NodeId) (loc : SourceLocation) (referencedDeclaration : option DeclId)
| TupleExpression (id : NodeId) (loc : SourceLocation) (isInlineArray : bool)
    (components : list Expression)
| OtherExpression (id : NodeId) (loc : SourceLocation) (children : list Expression).

Definition nodeId (e : Expression) : NodeId :=
  match e with
  | Literal id _ _ | UnaryOperation id _ _ _ | BinaryOperation id _ _ _ _
  | Identifier id _ _ | TupleExpression id _ _ _ | OtherExpression id _ _ => id
  end.

(** Modelled from the spec: [Declaration] (declared in
    [libsolidity/ast/AST.h]).  A variable declaration says whether it is
    constant, holds its initializer (or none) and the type its annotation
    records; any other declaration fails the cast to
    [VariableDeclaration]. *)
Inductive Declaration : Type :=
| VariableDeclaration (isConstant : bool) (value : option Expression)
    (annotation_type : TypePointer)
| OtherDeclaration.

(** ** The memo table *)

Definition result (_node : NodeId) (s : ConstantEvaluator) : option TypedValue :=
  m_evaluations s !! _node.

Definition lookupSourceType (_node : NodeId) (s : ConstantEvaluator) : TypePointer :=
  match m_evaluations s !! _node with
  | Some p => sourceType p
  | None => None
  end.

Definition lookupValue (_node : NodeId) (s : ConstantEvaluator) : TypePointer :=
  match m_evaluations s !! _node with
  | Some p => evaluatedValue p
  | None => None
  end.

Definition evaluated (_node : NodeId) (s : ConstantEvaluator) : bool :=
  bool_decide (is_Some (m_evaluations s !! _node)).

Definition setResult (_node : NodeId) (_result : option TypedValue)
    (s : ConstantEvaluator) : ConstantEvaluator :=
  match _result with
  | Some tv =>
      match evaluatedValue tv with
      | Some value =>
          if decide (category value = RationalNumber) then
            with_evaluations
              <[_node := {| sourceType := sourceType tv; evaluatedValue := Some value |}]> s
          else s
      | None => s
      end
  | None => s
  end.

Definition setValue (_node : NodeId) (_value : TypePointer)
    (s : ConstantEvaluator) : ConstantEvaluator :=
  setResult _node (Some {| sourceType := _value; evaluatedValue := _value |}) s.

(** ** The visitor *)

Fixpoint for_each {A} (f : A → M unit) (l : list A) : M unit :=
  match l with
  | [] => ret tt
  | x :: l' => f x ;; for_each f l'
  end.

Section Visitor.

Context `{TypeSystem}.
(** The declarations identifiers are linked to. *)
Variable declaration : DeclId → Declaration.
(** The recursive call of [evaluate]. *)
Variable evaluate_rec : Expression → M TypePointer.

Definition endVisit_UnaryOperation (id : NodeId) (op : Token)
    (subExpression : Expression) : M unit :=
  sub <- gets (lookupValue (nodeId subExpression)) ;;
  match sub with
  | Some sub =>
      log (CallUnaryOperatorResult sub op) ;;
      modify (setValue id (unaryOperatorResult sub op))
  | None => ret tt
  end.

Definition endVisit_BinaryOperation (id : NodeId) (loc : SourceLocation) (op : Token)
    (leftExpression rightExpression : Expression) : M unit :=
  left' <- gets (lookupValue (nodeId leftExpression)) ;;
  right' <- gets (lookupValue (nodeId rightExpression)) ;;
  match left', right' with
  | Some left_, Some right_ =>
      leftResult <- (o <- gets (result (nodeId leftExpression)) ;; value_of o) ;;
      rightResult <- (o <- gets (result (nodeId rightExpression)) ;; value_of o) ;;
      let leftType := sourceType leftResult in
      let rightType := sourceType rightResult in
      lt <- deref_after ("BinaryOperation:" +:+ " left: ") leftType ;;
      rt <- deref_after ("BinaryOperation:" +:+ " left: " +:+ toString lt +:+ " right: ")
              rightType ;;
      print ("BinaryOperation:" +:+ " left: " +:+ toString lt
             +:+ " right: " +:+ toString rt +:+ endl) ;;
      if bool_decide (category left_ = RationalNumber) &&
         bool_decide (category right_ = RationalNumber) &&
         bool_decide (category lt = Integer) &&
         bool_decide (category rt = Integer)
      then
        print ("GETTING HERE" +:+ endl) ;;
        lhs <- deref (match left_ with RationalNumberType q => Some q | _ => None end) ;;
        rhs <- deref (match right_ with RationalNumberType q => Some q | _ => None end) ;;
        let leftValue := lhs in
        let rightValue := rhs in
        solAssert (negb (isFractional lhs)) ;;
        solAssert (negb (isFractional rhs)) ;;
        result <- evaluateBinary leftValue rightValue op loc ;;
        match result with
        | Some q =>
            modify (setResult id
              (Some {| sourceType := leftType;
                       evaluatedValue := Some (TypeProvider.rationalNumber q) |}))
        | None => ret tt
        end
      else
        log (CallBinaryOperatorResult left_ op right_) ;;
        let commonType := binaryOperatorResult left_ op right_ in
        (if commonType is None then
           fatalTypeError 6020 loc
             ("Operator " +:+ TokenTraits.toString op +:+ " not compatible with types "
              +:+ toString left_ +:+ " and " +:+ toString right_)
         else ret tt) ;;
        modify (setValue id
          (if TokenTraits.isCompareOp op then Some TypeProvider.boolean else commonType))
  | _, _ => ret tt
  end.

Definition endVisit_Literal (id : NodeId) (forLiteral : TypePointer) : M unit :=
  modify (setValue id forLiteral).

Definition endVisit_Identifier (id : NodeId) (loc : SourceLocation)
    (referencedDeclaration : option DeclId) : M unit :=
  match declaration <$> referencedDeclaration with
  | Some (VariableDeclaration isConstant value annotation_type) =>
      if negb isConstant then ret tt
      else
        match value with
        | None => ret tt
        | Some value =>
            isEvaluated <- gets (evaluated (nodeId value)) ;;
            (if negb isEvaluated then
               depth <- gets m_depth ;;
               (if bool_decide (32 < depth)%nat then
                  fatalTypeError 5210 loc
                    "Cyclic constant definition (or maximum recursion depth exhausted)."
                else ret tt) ;;
               evaluate_rec value ;;
               ret tt
             else ret tt) ;;
            resultOpt <- gets (result (nodeId value)) ;;
            match resultOpt with
            | Some r =>
                modify (setResult id
                  (Some {| sourceType := annotation_type;
                           evaluatedValue := evaluatedValue r |}))
            | None => ret tt
            end
        end
  | Some OtherDeclaration | None => ret tt
  end.

Definition endVisit_TupleExpression (id : NodeId) (isInlineArray : bool)
    (components : list Expression) : M unit :=
  if negb isInlineArray && bool_decide (length components = 1%nat) then
    match components with
    | front :: _ => v <- gets (lookupValue (nodeId front)) ;; modify (setValue id v)
    | [] => ret tt
    end
  else ret tt.

(** [Expression::accept]: the children first, then the node's [endVisit]. *)
Fixpoint accept (_expr : Expression) : M unit :=
  match _expr with
  | Literal id _ forLiteral => endVisit_Literal id forLiteral
  | UnaryOperation id _ op sub =>
      accept sub ;;
      endVisit_UnaryOperation id op sub
  | BinaryOperation id loc op l r =>
      accept l ;;
      accept r ;;
      endVisit_BinaryOperation id loc op l r
  | Identifier id loc ref => endVisit_Identifier id loc ref
  | TupleExpression id _ isInlineArray components =>
      for_each accept components ;;
      endVisit_TupleExpression id isInlineArray components
  | OtherExpression _ _ children => for_each accept children
  end.

End Visitor.

(** ** [ConstantEvaluator::evaluate] *)

Section Evaluate.

Context `{TypeSystem}.
Variable declaration : DeclId → Declaration.

(** Every call of [evaluate] that the identifier rule makes costs one unit
    of [fuel]; the walk over the tree is structural. *)
Fixpoint evaluate (fuel : nat) (_expr : Expression) : M TypePointer :=
  match fuel with
  | O => λ s, (OutOfFuel, s)
  | S fuel' =>
      log (CallEvaluate (nodeId _expr)) ;;
      modify (with_depth S) ;;
      scope_guard (with_depth pred)
        (accept declaration (evaluate fuel') _expr ;;
         gets (lookupValue (nodeId _expr)))
  end.

(** Modelled from the spec: the constructor (declared in the header): a
    fresh evaluator over a diagnostic sink and a memo table, its depth
    counter at 0. *)
Definition construct (errors : list Diagnostic) (evaluations : gmap NodeId TypedValue)
  : ConstantEvaluator :=
  {| m_errorReporter := errors; m_evaluations := evaluations; m_depth := 0;
     cout := []; calls := [] |}.

(** The one-shot entry point: a fresh memo table. *)
Definition evaluate_static (fuel : nat) (errors : list Diagnostic) (_expr : Expression)
  : Outcome TypePointer * ConstantEvaluator :=
  evaluate fuel _expr (construct errors ∅).

End Evaluate.

(** ** Predicates the properties are stated with *)

Local Open Scope nat_scope.

(** Truncation of a fraction toward zero. *)
Definition truncate (x : Q) : Z := Z.quot (Qnum x) (Zpos (Qden x)).

(** Every memo entry holds a rational-number literal. *)
Definition memo_ok (m : gmap NodeId TypedValue) : Prop :=
  ∀ n tv, m !! n = Some tv →
    ∃ v, evaluatedValue tv = Some v ∧ category v = RationalNumber.

(** A call exits when it returns or when an exception leaves it. *)
Definition exits {A} (o : Outcome A) : Prop :=
  match o with Returned _ | Thrown _ => True | _ => False end.

(** What every step of the evaluator keeps: the memo invariant, the entries
    already present, the diagnostics already reported. *)
Record keeps (s s' : ConstantEvaluator) : Prop := {
  keeps_ok : memo_ok (m_evaluations s) → memo_ok (m_evaluations s');
  keeps_dom : ∀ n, is_Some (m_evaluations s !! n) → is_Some (m_evaluations s' !! n);
  keeps_errors : m_errorReporter s `prefix_of` m_errorReporter s'
}.

(** A run from [s] is sound for a recursion budget [k] when it keeps the
    above, leaves the depth counter as it found it on every exit, and does
    not run out of fuel from a depth the budget covers. *)
Definition sound_at (k : nat) {A} (r : Outcome A * ConstantEvaluator)
    (s : ConstantEvaluator) : Prop :=
  keeps s r.2 ∧
  (exits r.1 → m_depth r.2 = m_depth s) ∧
  (34 ≤ k + m_depth s ∨ 33 ≤ m_depth s → r.1 ≠ OutOfFuel).

Definition sound (k : nat) {A} (m : M A) : Prop := ∀ s, sound_at k (m s) s.

Definition rec_sound (k : nat) (rec : Expression → M TypePointer) : Prop :=
  ∀ e s, keeps s (rec e s).2 ∧
         (exits (rec e s).1 → m_depth (rec e s).2 = m_depth s) ∧
         (m_depth s ≤ 32 → 34 ≤ k + m_depth s → (rec e s).1 ≠ OutOfFuel).


(** A computation only adds to the call log. *)
Definition appends {A} (m : M A) : Prop :=
  ∀ s, ∃ cs, calls (m s).2 = calls s ++ cs.

Definition division_by_zero_diagnostic (loc : SourceLocation) : Diagnostic :=
  {| severity := Recoverable; errorId := 1211; location := loc;
     message := "Division by 0." |}.

Definition cyclic_diagnostic (loc : SourceLocation) : Diagnostic :=
  {| severity := Fatal; errorId := 5210; location := loc;
     message := "Cyclic constant definition (or maximum recursion depth exhausted)." |}.

Definition incompatible_diagnostic `{TypeSystem} (loc : SourceLocation) (op : Token)
    (l r : Type_) : Diagnostic :=
  {| severity := Fatal; errorId := 6020; location := loc;
     message := "Operator " +:+ TokenTraits.toString op +:+ " not compatible with types "
                +:+ toString l +:+ " and " +:+ toString r |}.

(** The line the binary rule prints before it chooses a path. *)
Definition operands_line `{TypeSystem} (lt rt : Type_) : string :=
  "BinaryOperation:" +:+ " left: " +:+ toString lt +:+ " right: " +:+ toString rt +:+ endl.

(** The condition of the fast path. *)
Definition fast_path (left_ right_ lt rt : Type_) : Prop :=
  category left_ = RationalNumber ∧ category right_ = RationalNumber ∧
  category lt = Integer ∧ category rt = Integer.

(** How often a node was handed to [evaluate], and how often the binary
    operator capability was called. *)
Definition evaluate_calls (n : NodeId) (s : ConstantEvaluator) : nat :=
  length (List.filter
            (λ c, match c with CallEvaluate n' => bool_decide (n' = n) | _ => false end)
            (calls s)).

Definition delegation_calls (s : ConstantEvaluator) : nat :=
  length (List.filter
            (λ c, match c with CallBinaryOperatorResult _ _ _ => true | _ => false end)
            (calls s)).


Section Chains.

Context `{TypeSystem}.
Variable declaration : DeclId → Declaration.






End Chains.

(** ** Concrete programs *)

Module Examples.

Definition here : SourceLocation := {| loc_start := 0; loc_end := 0 |}.

Definition uint256 : Type_ := IntegerType 256 false.

Definition int_const (z : Z) : Type_ := RationalNumberType (Rational.of_int z).

(** A small type system: literals add, subtract, multiply and compare;
    nothing else is defined. *)
Definition literalTypes : TypeSystem := {|
  unaryOperatorResult t op :=
    match t, op with
    | RationalNumberType q, Sub => Some (RationalNumberType (Rational.sub (Rational.of_int 0) q))
    | _, _ => None
    end;
  binaryOperatorResult l op r :=
    match l, r with
    | RationalNumberType a, RationalNumberType b =>
        match op with
        | Add => Some (RationalNumberType (Rational.add a b))
        | Sub => Some (RationalNumberType (Rational.sub a b))
        | Mul => Some (RationalNumberType (Rational.mul a b))
        | Equal | NotEqual | LessThan | GreaterThan
        | LessThanOrEqual | GreaterThanOrEqual => Some l
        | _ => None
        end
    | _, _ => None
    end;
  toString t :=
    match t with
    | RationalNumberType q => "rational_const " +:+ Rational.show q
    | IntegerType _ _ => "uint256"
    | BoolType => "bool"
    | StringLiteralType _ => "literal_string"
    | OtherType name => name
    end
|}.

Definition number (id : NodeId) (z : Z) : Expression :=
  Literal id here (Some (int_const z)).

(** [uint constant a = b; uint constant b = a;] *)
Definition two_cycle (d : DeclId) : Declaration :=
  match d with
  | 0 => VariableDeclaration true (Some (Identifier 10 here (Some 1))) (Some uint256)
  | 1 => VariableDeclaration true (Some (Identifier 11 here (Some 0))) (Some uint256)
  | _ => OtherDeclaration
  end.

(** [uint constant a = 1 + b; uint constant b = (a);] *)
Definition sum_cycle (d : DeclId) : Declaration :=
  match d with
  | 0 => VariableDeclaration true
           (Some (BinaryOperation 10 here Add (number 12 1) (Identifier 13 here (Some 1))))
           (Some uint256)
  | 1 => VariableDeclaration true
           (Some (TupleExpression 11 here false [Identifier 14 here (Some 0)]))
           (Some uint256)
  | _ => OtherDeclaration
  end.


(** [n] constants, each but the last defined as the next, the last as the
    literal 1.  The initializer of constant [d] is node [100 + d]. *)
Definition chain (n : nat) (d : DeclId) : Declaration :=
  if bool_decide (S d < n) then
    VariableDeclaration true (Some (Identifier (100 + d) here (Some (S d)))) (Some uint256)
  else if bool_decide (S d = n) then
    VariableDeclaration true (Some (number (100 + d) 1)) (Some uint256)
  else OtherDeclaration.

(** [uint constant a = 7; uint constant b = 0; bool constant c = 1 < 2;
    uint d;] *)
Definition constants (d : DeclId) : Declaration :=
  match d with
  | 0 => VariableDeclaration true (Some (number 10 7)) (Some uint256)
  | 1 => VariableDeclaration true (Some (number 11 0)) (Some uint256)
  | 2 => VariableDeclaration true
           (Some (BinaryOperation 12 here LessThan (number 13 1) (number 14 2)))
           (Some BoolType)
  | 3 => VariableDeclaration false None (Some uint256)
  | _ => OtherDeclaration
  end.

(** [a op b] over the constants above. *)
Definition a_op_b (op : Token) : Expression :=
  BinaryOperation 1 here op (Identifier 2 here (Some 0)) (Identifier 3 here (Some 1)).

Definition fresh : ConstantEvaluator := construct [] ∅.

(** The session after [a] and [b] have been folded. *)
Definition after_a_b : ConstantEvaluator :=
  (for_each (accept (H := literalTypes) constants (evaluate (H := literalTypes) constants 34))
     [Identifier 2 here (Some 0); Identifier 3 here (Some 1)] fresh).2.

(** The session after the literals 7 (node 2) and 0 (node 3) have been
    visited. *)
Definition after_literals : ConstantEvaluator :=
  (for_each (accept (H := literalTypes) constants (evaluate (H := literalTypes) constants 34))
     [number 2 7; number 3 0] fresh).2.

(** Two references to [c] evaluated one after the other in one session. *)
Definition c_twice : Outcome TypePointer * ConstantEvaluator :=
  (evaluate (H := literalTypes) constants 34 (Identifier 20 here (Some 2)) ;;
   evaluate (H := literalTypes) constants 34 (Identifier 21 here (Some 2))) fresh.

End Examples.

(** ** Predicates for the further properties *)

(** The operators [evaluateBinary] has a case for. *)
Definition folded_operator (op : Token) : bool :=
  match op with
  | BitOr | BitAnd | BitXor | Add | Sub | Mul | Div | Mod => true
  | _ => false
  end.

(** The state in which [evaluate] runs the visit of node [n]. *)
Definition entered (n : NodeId) (s : ConstantEvaluator) : ConstantEvaluator :=
  with_depth S (logged (CallEvaluate n) s).

(** The line [evaluateBinary] prints for an operator it has no case for. *)
Definition todo_line (l r : rational) (op : Token) : string :=
  "TODO: evaluateBinary: " +:+ Rational.show l +:+ " "
  +:+ TokenTraits.toString op +:+ " " +:+ Rational.show r +:+ endl.

(** Integer arithmetic with the operators the fold has a case for; no value
    for a zero divisor or any other operator. *)
Definition integer_fold (op : Token) (x y : Z) : option Z :=
  match op with
  | BitOr => Some (Z.lor x y)
  | BitAnd => Some (Z.land x y)
  | BitXor => Some (Z.lxor x y)
  | Add => Some (x + y)%Z
  | Sub => Some (x - y)%Z
  | Mul => Some (x * y)%Z
  | Div => if (y =? 0)%Z then None else Some (Z.quot x y)
  | Mod => if (y =? 0)%Z then None else Some (Z.rem x y)
  | _ => None
  end.

(** A result the memo table takes. *)
Definition storable (tv : TypedValue) : Prop :=
  ∃ v, evaluatedValue tv = Some v ∧ category v = RationalNumber.

(** Every memo entry has a source type and holds a rational-number
    literal. *)
Definition memo_typed (m : gmap NodeId TypedValue) : Prop :=
  ∀ n tv, m !! n = Some tv → is_Some (sourceType tv) ∧ storable tv.

(** Every constant with an initializer has its type annotation set. *)
Definition declarations_typed (declaration : DeclId → Declaration) : Prop :=
  ∀ d value ty, declaration d = VariableDeclaration true (Some value) ty → is_Some ty.

(** A computation that, from a typed memo table, keeps it typed and neither
    dereferences a null pointer nor reads an empty optional. *)
Definition null_safe {A} (m : M A) : Prop :=
  ∀ s, memo_typed (m_evaluations s) →
    memo_typed (m_evaluations (m s).2) ∧
    (m s).1 ≠ NullDereference ∧ (m s).1 ≠ Thrown bad_optional_access.

(** Diagnostics after which the run goes on. *)
Definition recoverable_only (l : list Diagnostic) : Prop :=
  Forall (λ d, severity d = Recoverable) l.

(** The diagnostics a run added, and how they fit its outcome: all of them
    recoverable, except that a run left by [FatalError] added a fatal one
    last. *)
Definition reports {A} (s : ConstantEvaluator) (r : Outcome A * ConstantEvaluator) : Prop :=
  ∃ l, m_errorReporter r.2 = m_errorReporter s ++ l ∧
    match r.1 with
    | Thrown FatalError =>
        ∃ l' d, l = l' ++ [d] ∧ recoverable_only l' ∧ severity d = Fatal
    | _ => recoverable_only l
    end.

Definition reports_well {A} (m : M A) : Prop := ∀ s, reports s (m s).

Module Sessions.

(** A session in which node 2 holds 1/2 and node 3 holds 3, both under the
    source type [uint256]. *)
Definition fractional : ConstantEvaluator :=
  construct []
    (<[2 := {| sourceType := Some Examples.uint256;
               evaluatedValue := Some (RationalNumberType (mk_rational 1 2)) |}]>
       (<[3 := {| sourceType := Some Examples.uint256;
                  evaluatedValue := Some (Examples.int_const 3) |}]> ∅)).

(** A session in which node 2 holds 7 under no source type and node 3 holds
    3 under [uint256]. *)
Definition untyped : ConstantEvaluator :=
  construct []
    (<[2 := {| sourceType := None; evaluatedValue := Some (Examples.int_const 7) |}]>
       (<[3 := {| sourceType := Some Examples.uint256;
                  evaluatedValue := Some (Examples.int_const 3) |}]> ∅)).

End Sessions.

(** * Properties *)

(** ** Exact rationals *)

Local Open Scope Z_scope.

Section RationalFacts.
Import Rational.

Lemma gcd_split n d :
  d ≠ 0 → ∃ g n' d', Z.gcd n d = g ∧ 0 < g ∧ n = g * n' ∧ d = g * d' ∧
                     Z.gcd n' d' = 1 ∧ d' ≠ 0.
Proof.
  intros Hd. pose proof (Z.gcd_nonneg n d) as Hnn.
  assert (Z.gcd n d ≠ 0) as Hg0 by (intros E; apply Z.gcd_eq_0_r in E; done).
  pose proof (Z.gcd_div_gcd n d _ Hg0 eq_refl) as E.
  destruct (Z.gcd_divide_l n d) as [n' Hn], (Z.gcd_divide_r n d) as [d' Hd'].
  remember (Z.gcd n d) as g eqn:Eg.
  assert (n / g = n') as En by (rewrite Hn; apply Z.div_mul; done).
  assert (d / g = d') as Ed by (rewrite Hd'; apply Z.div_mul; done).
  rewrite En, Ed in E.
  assert (d' ≠ 0) by (intros ->; lia).
  exists g, n', d'.
  split; [done|]. split; [lia|]. split; [lia|]. split; [lia|]. done.
Qed.

Lemma normalize_cases n d :
  d ≠ 0 → ∃ g n' d', 0 < g ∧ n = g * n' ∧ d = g * d' ∧ Z.gcd n' d' = 1 ∧ d' ≠ 0 ∧
    normalize n d = if d' <? 0 then mk_rational (- n') (- d') else mk_rational n' d'.
Proof.
  intros Hd. destruct (gcd_split n d Hd) as (g & n' & d' & Eg & Hg & Hn & Hd' & Hg1 & Hd0).
  exists g, n', d'. repeat (split; [done|]).
  unfold normalize. rewrite Eg.
  assert (n / g = n') as -> by (subst n; rewrite Z.mul_comm; apply Z.div_mul; lia).
  assert (d / g = d') as -> by (subst d; rewrite Z.mul_comm; apply Z.div_mul; lia).
  destruct (Z.ltb_spec d 0), (Z.ltb_spec d' 0); try done; nia.
Qed.

Lemma normalize_wf n d : d ≠ 0 → wf (normalize n d).
Proof.
  intros Hd.
  destruct (normalize_cases n d Hd) as (g & n' & d' & Hg & Hn & Hd' & Hg1 & Hd0 & ->).
  unfold wf. destruct (Z.ltb_spec d' 0); simpl.
  - rewrite Z.gcd_opp_l, Z.gcd_opp_r. split; [lia | done].
  - split; [lia | done].
Qed.

Lemma normalize_quot n d :
  d ≠ 0 →
  Z.quot (numerator (normalize n d)) (denominator (normalize n d)) = Z.quot n d.
Proof.
  intros Hd.
  destruct (normalize_cases n d Hd) as (g & n' & d' & Hg & Hn & Hd' & Hg1 & Hd0 & ->).
  assert (Z.quot n d = Z.quot n' d') as ->.
  { subst n d. apply Z.quot_mul_cancel_l; lia. }
  destruct (Z.ltb_spec d' 0); simpl; [|done].
  rewrite Z.quot_opp_opp; [done | lia].
Qed.

Lemma normalize_Q n d :
  0 < d → (to_Q (normalize n d) == Qmake n (Z.to_pos d))%Q.
Proof.
  intros Hd. assert (d ≠ 0) as Hd0 by lia.
  destruct (normalize_cases n d Hd0) as (g & n' & d' & Hg & Hn & Hd' & Hg1 & Hd0' & ->).
  destruct (Z.ltb_spec d' 0); [nia|].
  unfold to_Q, Qeq. simpl. rewrite !Z2Pos.id by nia. nia.
Qed.

Lemma normalize_integral n : normalize n 1 = of_int n.
Proof.
  unfold normalize, of_int. rewrite Z.gcd_1_r. simpl. by rewrite Z.div_1_r.
Qed.

Lemma to_Q_of_int z : to_Q (of_int z) = inject_Z z.
Proof. reflexivity. Qed.

Lemma to_Q_sub a b : wf a → wf b → (to_Q (sub a b) == to_Q a - to_Q b)%Q.
Proof.
  intros [Ha _] [Hb _]. unfold sub. rewrite normalize_Q by nia.
  unfold to_Q, Qeq, Qminus, Qplus, Qopp. simpl.
  rewrite !Pos2Z.inj_mul, !Z2Pos.id by nia. ring.
Qed.

Lemma to_Q_mul a b : wf a → wf b → (to_Q (mul a b) == to_Q a * to_Q b)%Q.
Proof.
  intros [Ha _] [Hb _]. unfold mul. rewrite normalize_Q by nia.
  unfold to_Q, Qeq, Qmult. simpl.
  rewrite !Pos2Z.inj_mul, !Z2Pos.id by nia. ring.
Qed.

Lemma mul_wf a b : wf a → wf b → wf (mul a b).
Proof. intros [Ha _] [Hb _]. apply normalize_wf. nia. Qed.

Lemma of_int_wf z : wf (of_int z).
Proof. split; simpl; [lia | apply Z.gcd_1_r]. Qed.

(** The truncated quotient of two stored rationals is the truncated
    quotient of the cross products. *)
Lemma truncate_div l r :
  wf l → wf r → numerator r ≠ 0 →
  truncate (to_Q l / to_Q r) =
  Z.quot (numerator l * denominator r) (denominator l * numerator r).
Proof.
  intros [Hl _] [Hr _] Hn. unfold truncate, to_Q, Qdiv, Qinv, Qmult. simpl.
  destruct (numerator r) as [|p|p] eqn:E; [done| |]; simpl.
  - rewrite Pos2Z.inj_mul, !Z2Pos.id by lia. done.
  - rewrite Pos2Z.inj_mul, !Z2Pos.id by lia.
    change (Z.neg (Z.to_pos (denominator r))) with (- Z.pos (Z.to_pos (denominator r))).
    rewrite Z2Pos.id by lia.
    replace (denominator l * Z.neg p) with (- (denominator l * Z.pos p)) by lia.
    rewrite Z.mul_opp_r. rewrite Z.quot_opp_l, Z.quot_opp_r by lia. done.
Qed.

Lemma div_Some l r :
  numerator r ≠ 0 →
  div l r = Some (normalize (numerator l * denominator r) (denominator l * numerator r)).
Proof. intros Hn. unfold div. by destruct (Z.eqb_spec (numerator r) 0). Qed.

Lemma eqb_zero r : wf r → eqb r (of_int 0) = bool_decide (numerator r = 0).
Proof.
  intros [Hpos Hg]. unfold eqb. simpl.
  destruct (Z.eqb_spec (numerator r) 0) as [E|E]; simpl.
  - rewrite bool_decide_eq_true_2 by done. rewrite E in Hg. simpl in Hg.
    rewrite Z.abs_eq in Hg by lia. by apply Z.eqb_eq.
  - by rewrite bool_decide_eq_false_2.
Qed.

End RationalFacts.

(** ** The fast-path fold *)

Section Folding.
Import Rational.

(** C1: on integral operands the fast-path fold is the bitwise operation on
    the numerators for OR, AND and XOR, exact integer arithmetic for
    addition, subtraction and multiplication, and for a non-zero divisor the
    quotient truncated toward zero. *)
Theorem evaluateBinary_integral (a b : Z) (loc : SourceLocation) (s : ConstantEvaluator) :
  let fold := λ op, evaluateBinary (of_int a) (of_int b) op loc s in
  fold BitOr = (Returned (Some (of_int (Z.lor a b))), s) ∧
  fold BitAnd = (Returned (Some (of_int (Z.land a b))), s) ∧
  fold BitXor = (Returned (Some (of_int (Z.lxor a b))), s) ∧
  fold Add = (Returned (Some (of_int (a + b))), s) ∧
  fold Sub = (Returned (Some (of_int (a - b))), s) ∧
  fold Mul = (Returned (Some (of_int (a * b))), s) ∧
  (b ≠ 0 →
   fold Div = (Returned (Some (of_int (Z.quot a b))), s) ∧
   Z.quot a b = truncate (inject_Z a / inject_Z b)).
Proof.
  cbv zeta. unfold evaluateBinary, add, sub, mul. simpl.
  rewrite !Z.mul_1_r, !normalize_integral.
  repeat (split; [reflexivity|]).
  intros Hb. rewrite div_Some by done. simpl.
  rewrite normalize_quot by lia. rewrite Z.mul_1_r, Z.mul_1_l.
  split; [done|].
  change (inject_Z a) with (to_Q (of_int a)). change (inject_Z b) with (to_Q (of_int b)).
  rewrite truncate_div by (done || apply of_int_wf). simpl. by rewrite Z.mul_1_r, Z.mul_1_l.
Qed.

(** C3: for a non-zero right operand the modulo fold is the integer
    remainder of the numerators, its sign following the dividend, when both
    operands are integral, and [l - q * r] with [q] the quotient [l / r]
    truncated toward zero otherwise. *)
Theorem evaluateBinary_modulo (l r : rational) (loc : SourceLocation) (s : ConstantEvaluator) :
  wf l → wf r → numerator r ≠ 0 →
  ∃ res,
    evaluateBinary l r Mod loc s = (Returned (Some res), s) ∧
    (denominator l = 1 ∧ denominator r = 1 →
       res = of_int (Z.rem (numerator l) (numerator r)) ∧
       0 ≤ Z.rem (numerator l) (numerator r) * numerator l ∧
       Z.abs (Z.rem (numerator l) (numerator r)) < Z.abs (numerator r)) ∧
    (¬ (denominator l = 1 ∧ denominator r = 1) →
       let q := truncate (to_Q l / to_Q r) in
       res = sub l (mul (of_int q) r) ∧
       (to_Q res == to_Q l - inject_Z q * to_Q r)%Q).
Proof.
  intros Hl Hr Hn. unfold evaluateBinary.
  rewrite eqb_zero by done. rewrite bool_decide_eq_false_2 by done.
  destruct (Z.eqb_spec (denominator l) 1) as [El|El];
    [destruct (Z.eqb_spec (denominator r) 1) as [Er|Er]|]; simpl.
  - eexists. split; [reflexivity|]. split; [|tauto].
    intros _. split; [done|]. split.
    + apply Z.rem_sign_mul. done.
    + apply Z.rem_bound_abs. done.
  - rewrite div_Some by done. eexists. split; [reflexivity|]. split; [tauto|].
    intros _. cbv zeta. rewrite truncate_div, normalize_quot by (done || (destruct Hl, Hr; nia)).
    split; [done|].
    rewrite to_Q_sub, to_Q_mul, to_Q_of_int by auto using mul_wf, of_int_wf. reflexivity.
  - rewrite div_Some by done. eexists. split; [reflexivity|]. split; [tauto|].
    intros _. cbv zeta. rewrite truncate_div, normalize_quot by (done || (destruct Hl, Hr; nia)).
    split; [done|].
    rewrite to_Q_sub, to_Q_mul, to_Q_of_int by auto using mul_wf, of_int_wf. reflexivity.
Qed.

(** C4: with a zero right operand the modulo fold reports one recoverable
    diagnostic at the operator and yields no result, while the division fold
    reports nothing and raises [bad_rational]. *)
Theorem evaluateBinary_zero_divisor (l : rational) (loc : SourceLocation) (s : ConstantEvaluator) :
  evaluateBinary l (of_int 0) Mod loc s =
    (Returned None, report (division_by_zero_diagnostic loc) s) ∧
  evaluateBinary l (of_int 0) Div loc s = (Thrown bad_rational, s).
Proof. split; reflexivity. Qed.

End Folding.

Lemma evaluateBinary_integral_witness :
  evaluateBinary (Rational.of_int (-7)) (Rational.of_int 2) Div Examples.here Examples.fresh
  = (Returned (Some (Rational.of_int (-3))), Examples.fresh).
Proof.
  apply (evaluateBinary_integral (-7) 2 Examples.here Examples.fresh). lia.
Defined.

Lemma evaluateBinary_modulo_witness :
  ∃ res,
    evaluateBinary (mk_rational 7 2) (mk_rational (-3) 4) Mod Examples.here Examples.fresh
    = (Returned (Some res), Examples.fresh) ∧
    (Rational.to_Q res ==
     Rational.to_Q (mk_rational 7 2) -
     inject_Z (truncate (Rational.to_Q (mk_rational 7 2) / Rational.to_Q (mk_rational (-3) 4))) *
     Rational.to_Q (mk_rational (-3) 4))%Q.
Proof.
  destruct (evaluateBinary_modulo (mk_rational 7 2) (mk_rational (-3) 4)
              Examples.here Examples.fresh) as (res & E & _ & Hfrac).
  - split; [simpl; lia | reflexivity].
  - split; [simpl; lia | reflexivity].
  - simpl. lia.
  - exists res. split; [exact E|]. apply Hfrac. simpl. lia.
Defined.

Example evaluateBinary_examples :
  let fold := λ a b op,
    (evaluateBinary (Rational.of_int a) (Rational.of_int b) op Examples.here Examples.fresh).1 in
  fold 7 2 Div = Returned (Some (Rational.of_int 3)) ∧
  fold (-7) 2 Div = Returned (Some (Rational.of_int (-3))) ∧
  fold 6 3 BitOr = Returned (Some (Rational.of_int 7)) ∧
  fold 6 3 BitAnd = Returned (Some (Rational.of_int 2)) ∧
  fold 6 3 BitXor = Returned (Some (Rational.of_int 5)) ∧
  fold 7 3 Mod = Returned (Some (Rational.of_int 1)) ∧
  fold (-7) 3 Mod = Returned (Some (Rational.of_int (-1))).
Proof. repeat split. Qed.

(** ** What every run of the evaluator keeps *)

Local Open Scope nat_scope.

Lemma Expression_nested_ind (P : Expression → Prop) :
  (∀ id loc t, P (Literal id loc t)) →
  (∀ id loc op sub, P sub → P (UnaryOperation id loc op sub)) →
  (∀ id loc op l r, P l → P r → P (BinaryOperation id loc op l r)) →
  (∀ id loc ref, P (Identifier id loc ref)) →
  (∀ id loc inl cs, Forall P cs → P (TupleExpression id loc inl cs)) →
  (∀ id loc cs, Forall P cs → P (OtherExpression id loc cs)) →
  ∀ e, P e.
Proof.
  intros HL HU HB HI HT HO.
  fix IH 1. intros [id loc t|id loc op sub|id loc op l r|id loc ref|id loc inl cs|id loc cs].
  - apply HL.
  - apply HU, IH.
  - apply HB; apply IH.
  - apply HI.
  - apply HT. induction cs as [|c cs IHcs]; constructor; [apply IH | exact IHcs].
  - apply HO. induction cs as [|c cs IHcs]; constructor; [apply IH | exact IHcs].
Qed.

Section Keeps.

Lemma keeps_refl s : keeps s s.
Proof. by split. Qed.

Lemma keeps_trans s1 s2 s3 : keeps s1 s2 → keeps s2 s3 → keeps s1 s3.
Proof.
  intros [a1 b1 c1] [a2 b2 c2]. split; [auto | auto |]. by etrans.
Qed.

Lemma memo_ok_empty : memo_ok ∅.
Proof. intros n tv. by rewrite lookup_empty. Qed.

Lemma memo_ok_insert m n st v :
  memo_ok m → category v = RationalNumber →
  memo_ok (<[n := {| sourceType := st; evaluatedValue := Some v |}]> m).
Proof.
  intros Hm Hv n' tv. rewrite lookup_insert. case_decide.
  - intros [= <-]. eauto.
  - apply Hm.
Qed.

Lemma keeps_setResult n r s : keeps s (setResult n r s).
Proof.
  unfold setResult. destruct r as [tv|]; [|apply keeps_refl].
  destruct (evaluatedValue tv) as [v|]; [|apply keeps_refl].
  case_decide; [|apply keeps_refl]. split; simpl; [| |done].
  - intros Hm. by apply memo_ok_insert.
  - intros n'. rewrite lookup_insert. case_decide; eauto.
Qed.

Lemma keeps_setValue n v s : keeps s (setValue n v s).
Proof. apply keeps_setResult. Qed.

Lemma keeps_report d s : keeps s (report d s).
Proof. split; simpl; [done | done | by apply prefix_app_r]. Qed.

Lemma keeps_with_cout f s : keeps s (with_cout f s).
Proof. by split. Qed.

Lemma keeps_with_calls f s : keeps s (with_calls f s).
Proof. by split. Qed.

Lemma keeps_with_depth f s : keeps s (with_depth f s).
Proof. by split. Qed.

Lemma setResult_depth n r s : m_depth (setResult n r s) = m_depth s.
Proof. unfold setResult. repeat case_match; done. Qed.

End Keeps.

Section Sound.

Context `{TypeSystem}.
Variable k : nat.

Lemma sound_ret {A} (a : A) : sound k (ret a).
Proof. intros s. simpl. split; [apply keeps_refl | done]. Qed.

Lemma sound_throw {A} e : sound k (@throw A e).
Proof. intros s. simpl. split; [apply keeps_refl | done]. Qed.

Lemma sound_gets {A} (f : ConstantEvaluator → A) : sound k (gets f).
Proof. intros s. simpl. split; [apply keeps_refl | done]. Qed.

Lemma sound_modify f :
  (∀ s, keeps s (f s)) → (∀ s, m_depth (f s) = m_depth s) → sound k (modify f).
Proof. intros Hk Hd s. unfold sound_at. simpl. split; [apply Hk | split; [auto | done]]. Qed.

Lemma sound_deref {A} (p : option A) : sound k (deref p).
Proof. intros s. destruct p; simpl; (split; [apply keeps_refl | done]). Qed.

Lemma sound_bind {A B} (m : M A) (f : A → M B) :
  sound k m → (∀ a, sound k (f a)) → sound k (bind m f).
Proof.
  intros Hm Hf s. specialize (Hm s). unfold sound_at, bind in *.
  destruct (m s) as [[a| e | |] s1]; simpl in *; destruct Hm as (Hk & Hd & Hfuel).
  - specialize (Hd I).
    destruct (Hf a s1) as (Hk' & Hd' & Hfuel'). simpl in *. rewrite Hd in *.
    split; [by eapply keeps_trans | done].
  - done.
  - done.
  - split; [done | split; [done|]]. intros Hc. by destruct (Hfuel Hc).
Qed.

Lemma sound_value_of {A} (o : option A) : sound k (value_of o).
Proof. destruct o; [apply sound_ret | apply sound_throw]. Qed.

Lemma sound_solAssert b : sound k (solAssert b).
Proof. destruct b; [apply sound_ret | apply sound_throw]. Qed.

Lemma sound_typeError id loc msg : sound k (typeError id loc msg).
Proof. apply sound_modify; [intros; apply keeps_report | done]. Qed.

Lemma sound_fatalTypeError id loc msg : sound k (fatalTypeError id loc msg).
Proof.
  apply sound_bind; [|intros; apply sound_throw].
  apply sound_modify; [intros; apply keeps_report | done].
Qed.

Lemma sound_print line : sound k (print line).
Proof. apply sound_modify; [intros; apply keeps_with_cout | done]. Qed.

Lemma sound_log c : sound k (log c).
Proof. apply sound_modify; [intros; apply keeps_with_calls | done]. Qed.

Lemma sound_deref_after {A} written (p : option A) : sound k (deref_after written p).
Proof.
  destruct p; simpl; [apply sound_ret|].
  apply sound_bind; [apply sound_print | intros; apply sound_deref].
Qed.

Lemma sound_setResult n r : sound k (modify (setResult n r)).
Proof. apply sound_modify; [intros; apply keeps_setResult | apply setResult_depth]. Qed.

Lemma sound_setValue n v : sound k (modify (setValue n v)).
Proof. apply sound_setResult. Qed.

Ltac sound_step :=
  first
    [ apply sound_ret | apply sound_throw | apply sound_gets | apply sound_deref
    | apply sound_deref_after | apply sound_value_of | apply sound_solAssert | apply sound_typeError
    | apply sound_fatalTypeError | apply sound_print | apply sound_log
    | apply sound_setResult | apply sound_setValue
    | apply sound_bind; [|intros ?]
    | case_match ].

Lemma sound_evaluateBinary l r op loc : sound k (evaluateBinary l r op loc).
Proof. unfold evaluateBinary. repeat sound_step. Qed.

Lemma sound_endVisit_UnaryOperation id op sub :
  sound k (endVisit_UnaryOperation id op sub).
Proof. unfold endVisit_UnaryOperation. repeat sound_step. Qed.

Lemma sound_endVisit_BinaryOperation id loc op l r :
  sound k (endVisit_BinaryOperation id loc op l r).
Proof.
  unfold endVisit_BinaryOperation. cbv zeta.
  repeat first [apply sound_evaluateBinary | sound_step].
Qed.

Lemma sound_endVisit_Literal id t : sound k (endVisit_Literal id t).
Proof. apply sound_setValue. Qed.

Lemma sound_endVisit_TupleExpression id inl cs :
  sound k (endVisit_TupleExpression id inl cs).
Proof. unfold endVisit_TupleExpression. repeat sound_step. Qed.

Lemma sound_endVisit_Identifier declaration rec id loc ref :
  rec_sound k rec → sound k (endVisit_Identifier declaration rec id loc ref).
Proof.
  intros Hrec. unfold endVisit_Identifier.
  destruct (declaration <$> ref) as [[isConstant [value|] ty|]|]; try apply sound_ret;
    destruct isConstant; simpl; try apply sound_ret.
  apply sound_bind; [apply sound_gets|]. intros isEvaluated.
  apply sound_bind; [|intros; repeat sound_step].
  destruct isEvaluated; simpl; [apply sound_ret|].
  intros s. unfold sound_at, bind, gets, ret.
  case_bool_decide as Hdepth.
  - simpl. split; [apply keeps_report | done].
  - destruct (Hrec value s) as (Hk & Hd & Hfuel).
    destruct (rec value s) as [[a|e| |] s1]; simpl in *; (split; [done|]); split; try done.
    intros [Hc|Hc]; [|lia]. destruct Hfuel; [lia | done | done].
Qed.

Lemma sound_for_each {A} (f : A → M unit) (l : list A) :
  Forall (λ x, sound k (f x)) l → sound k (for_each f l).
Proof.
  induction 1 as [|x l Hx _ IH]; simpl; [apply sound_ret|].
  apply sound_bind; [done | intros; apply IH].
Qed.

Lemma sound_accept declaration rec e :
  rec_sound k rec → sound k (accept declaration rec e).
Proof.
  intros Hrec. induction e using Expression_nested_ind; simpl.
  - apply sound_endVisit_Literal.
  - apply sound_bind; [done | intros; apply sound_endVisit_UnaryOperation].
  - apply sound_bind; [done | intros].
    apply sound_bind; [done | intros; apply sound_endVisit_BinaryOperation].
  - by apply sound_endVisit_Identifier.
  - apply sound_bind; [by apply sound_for_each | intros; apply sound_endVisit_TupleExpression].
  - by apply sound_for_each.
Qed.

End Sound.

Section EvaluateSound.

Context `{TypeSystem}.
Variable declaration : DeclId → Declaration.

Lemma evaluate_rec_sound fuel : rec_sound fuel (evaluate declaration fuel).
Proof.
  induction fuel as [|fuel IH]; intros e s.
  - simpl. split; [apply keeps_refl | split; [done | lia]].
  - pose proof (sound_accept fuel declaration _ e IH
                  (with_depth S (with_calls (λ l, l ++ [CallEvaluate (nodeId e)]) s)))
      as (Hk & Hd & Hfuel).
    simpl. unfold bind at 1 2. simpl. unfold scope_guard, bind, gets.
    simpl in *.
    destruct (accept declaration (evaluate declaration fuel) e _) as [[[]|ex| |] s1];
      simpl in *.
    + split; [|split; [intros _; rewrite Hd by done; done | done]].
      destruct Hk as [a b c]. by split.
    + split; [|split; [intros _; rewrite Hd by done; done | done]].
      destruct Hk as [a b c]. by split.
    + split; [|done]. destruct Hk as [a b c]. by split.
    + split; [|split; [done|]]. { destruct Hk as [a b c]. by split. }
      intros Hle Hge. destruct Hfuel; [lia | done].
Qed.

End EvaluateSound.

(** ** The identifier rule *)

Section Fatal.
Context `{TypeSystem}.
Variable declaration : DeclId → Declaration.

Lemma with_depth_pred_S s : with_depth pred (with_depth S s) = s.
Proof. by destruct s. Qed.

Lemma evaluate_Identifier fuel id loc ref s :
  evaluate declaration (S fuel) (Identifier id loc ref) s =
  match endVisit_Identifier declaration (evaluate declaration fuel) id loc ref
          (with_depth S (with_calls (λ l, l ++ [CallEvaluate id]) s)) with
  | (Returned _, s') => (Returned (lookupValue id s'), with_depth pred s')
  | (Thrown e, s') => (Thrown e, with_depth pred s')
  | (NullDereference, s') => (NullDereference, s')
  | (OutOfFuel, s') => (OutOfFuel, s')
  end.
Proof.
  simpl. unfold scope_guard, bind, log, modify, gets. simpl.
  by destruct (endVisit_Identifier _ _ _ _ _ _) as [[[]|e| |] s'].
Qed.

Lemma endVisit_Identifier_fresh rec id loc d value ty s :
  declaration d = VariableDeclaration true (Some value) ty →
  m_evaluations s !! nodeId value = None →
  endVisit_Identifier declaration rec id loc (Some d) s =
  if bool_decide (32 < m_depth s) then
    (Thrown FatalError, report (cyclic_diagnostic loc) s)
  else
    match rec value s with
    | (Returned _, s1) =>
        (Returned tt,
         match result (nodeId value) s1 with
         | Some r =>
             setResult id
               (Some {| sourceType := ty; evaluatedValue := evaluatedValue r |}) s1
         | None => s1
         end)
    | (Thrown e, s1) => (Thrown e, s1)
    | (NullDereference, s1) => (NullDereference, s1)
    | (OutOfFuel, s1) => (OutOfFuel, s1)
    end.
Proof.
  intros Hd Hm. unfold endVisit_Identifier. cbn [fmap option_fmap option_map]. rewrite Hd.
  cbn [negb]. unfold bind, gets, evaluated. rewrite Hm.
  rewrite bool_decide_eq_false_2 by (by intros [? ?]). cbn [negb].
  case_bool_decide; [done|]. unfold ret.
  destruct (rec value s) as [[a|e| |] s1]; try done.
  by destruct (result (nodeId value) s1).
Qed.

Lemma endVisit_Identifier_memoized rec id loc d value ty s :
  declaration d = VariableDeclaration true (Some value) ty →
  is_Some (m_evaluations s !! nodeId value) →
  endVisit_Identifier declaration rec id loc (Some d) s =
  (Returned tt,
   setResult id (Some {| sourceType := ty; evaluatedValue := lookupValue (nodeId value) s |}) s).
Proof.
  intros Hd [r Hm]. unfold endVisit_Identifier. cbn [fmap option_fmap option_map]. rewrite Hd.
  cbn [negb]. unfold bind, gets, evaluated, lookupValue, result. rewrite Hm.
  rewrite bool_decide_eq_true_2 by eauto. cbn [negb]. unfold ret. by rewrite Hm.
Qed.

End Fatal.

(** ** Fuel beyond what a run needs changes nothing *)

Section Agrees.
Context `{TypeSystem}.








End Agrees.

(** ** Recursion depth *)

Section Recursion.

Context `{TypeSystem}.
Variable declaration : DeclId → Declaration.



End Recursion.

(** Both orders of the two-constant cycle. *)
Example two_cycle_runs :
  let run := λ d,
    evaluate (H := Examples.literalTypes) Examples.two_cycle 34
      (Identifier 1 Examples.here (Some d)) Examples.fresh in
  (run 0).1 = Thrown FatalError ∧ (run 1).1 = Thrown FatalError ∧
  m_errorReporter (run 0).2 = [cyclic_diagnostic Examples.here] ∧
  m_errorReporter (run 1).2 = [cyclic_diagnostic Examples.here] ∧
  m_depth (run 0).2 = 0 ∧ m_evaluations (run 0).2 = ∅.
Proof. vm_compute. repeat split. Qed.

(** The head of a chain of 33 constants is fatal, the head of a chain of 32
    folds. *)
Example chain_heads_run :
  let run := λ n,
    evaluate (H := Examples.literalTypes) (Examples.chain n) 34
      (Identifier 1 Examples.here (Some 0)) Examples.fresh in
  (run 33).1 = Thrown FatalError ∧
  m_errorReporter (run 33).2 = [cyclic_diagnostic Examples.here] ∧
  (run 32).1 = Returned (Some (Examples.int_const 1)) ∧
  m_errorReporter (run 32).2 = [].
Proof. vm_compute. repeat split. Qed.


(** ** The call log only grows *)

Section Appends.
Context `{TypeSystem}.

Lemma appends_same {A} (m : M A) : (∀ s, calls (m s).2 = calls s) → appends m.
Proof. intros Hm s. exists []. by rewrite app_nil_r. Qed.

Lemma appends_ret {A} (a : A) : appends (ret a).
Proof. by apply appends_same. Qed.

Lemma appends_throw {A} e : appends (@throw A e).
Proof. by apply appends_same. Qed.

Lemma appends_gets {A} (f : ConstantEvaluator → A) : appends (gets f).
Proof. by apply appends_same. Qed.

Lemma appends_deref {A} (p : option A) : appends (deref p).
Proof. apply appends_same. intros s. by destruct p. Qed.

Lemma appends_modify f : (∀ s, calls (f s) = calls s) → appends (modify f).
Proof. intros Hf. by apply appends_same. Qed.

Lemma appends_log c : appends (log c).
Proof. intros s. by exists [c]. Qed.

Lemma appends_bind {A B} (m : M A) (f : A → M B) :
  appends m → (∀ a, appends (f a)) → appends (bind m f).
Proof.
  intros Hm Hf s. destruct (Hm s) as (cs1 & E1). unfold bind.
  destruct (m s) as [[a|e| |] s1]; simpl in *; try by exists cs1.
  destruct (Hf a s1) as (cs2 & E2). exists (cs1 ++ cs2). by rewrite E2, E1, app_assoc.
Qed.

Lemma appends_deref_after {A} written (p : option A) : appends (deref_after written p).
Proof.
  destruct p; simpl; [apply appends_ret|].
  apply appends_bind; [by apply appends_modify | intros; apply appends_deref].
Qed.

Lemma appends_value_of {A} (o : option A) : appends (value_of o).
Proof. destruct o; [apply appends_ret | apply appends_throw]. Qed.

Lemma appends_solAssert b : appends (solAssert b).
Proof. destruct b; [apply appends_ret | apply appends_throw]. Qed.

Lemma setResult_calls n r s : calls (setResult n r s) = calls s.
Proof. unfold setResult. by repeat case_match. Qed.

Ltac appends_step :=
  first
    [ apply appends_ret | apply appends_throw | apply appends_gets | apply appends_deref
    | apply appends_deref_after | apply appends_value_of | apply appends_solAssert
    | apply appends_log
    | apply appends_modify; intros; first [done | apply setResult_calls]
    | apply appends_bind; [|intros ?]
    | case_match ].

Lemma appends_evaluateBinary l r op loc : appends (evaluateBinary l r op loc).
Proof. unfold evaluateBinary, print, typeError. repeat appends_step. Qed.

Lemma appends_endVisit_UnaryOperation id op sub :
  appends (endVisit_UnaryOperation id op sub).
Proof. unfold endVisit_UnaryOperation, setValue. repeat appends_step. Qed.

Lemma appends_endVisit_BinaryOperation id loc op l r :
  appends (endVisit_BinaryOperation id loc op l r).
Proof.
  unfold endVisit_BinaryOperation, print, setValue, fatalTypeError. cbv zeta.
  repeat first [apply appends_evaluateBinary | appends_step].
Qed.

Lemma appends_endVisit_TupleExpression id inl cs :
  appends (endVisit_TupleExpression id inl cs).
Proof. unfold endVisit_TupleExpression, setValue. repeat appends_step. Qed.

Lemma appends_endVisit_Identifier declaration rec id loc ref :
  (∀ e, appends (rec e)) →
  appends (endVisit_Identifier declaration rec id loc ref).
Proof.
  intros Hrec. unfold endVisit_Identifier, fatalTypeError.
  repeat first [apply Hrec | appends_step].
Qed.

Lemma appends_for_each {A} (f : A → M unit) (l : list A) :
  Forall (λ x, appends (f x)) l → appends (for_each f l).
Proof.
  induction 1 as [|x l Hx _ IH]; simpl; [apply appends_ret|].
  apply appends_bind; [done | intros; apply IH].
Qed.

Lemma appends_accept declaration rec e :
  (∀ e, appends (rec e)) → appends (accept declaration rec e).
Proof.
  intros Hrec. induction e using Expression_nested_ind; simpl.
  - unfold endVisit_Literal, setValue. appends_step.
  - apply appends_bind; [done | intros; apply appends_endVisit_UnaryOperation].
  - apply appends_bind; [done | intros].
    apply appends_bind; [done | intros; apply appends_endVisit_BinaryOperation].
  - by apply appends_endVisit_Identifier.
  - apply appends_bind;
      [by apply appends_for_each | intros; apply appends_endVisit_TupleExpression].
  - by apply appends_for_each.
Qed.

Lemma appends_scope_guard {A} cleanup (m : M A) :
  (∀ s, calls (cleanup s) = calls s) → appends m → appends (scope_guard cleanup m).
Proof.
  intros Hc Hm s. destruct (Hm s) as (cs & E). exists cs. unfold scope_guard.
  destruct (m s) as [[a|e| |] s1]; simpl in *; by rewrite ?Hc.
Qed.

Lemma appends_evaluate declaration fuel e : appends (evaluate declaration fuel e).
Proof.
  revert e. induction fuel as [|fuel IH]; intros e; [by apply appends_same|].
  simpl. apply appends_bind; [apply appends_log | intros].
  apply appends_bind; [by apply appends_modify | intros].
  apply appends_scope_guard; [done|].
  apply appends_bind; [by apply appends_accept | intros; apply appends_gets].
Qed.

(** A call of [evaluate] with fuel left logs itself first. *)
Lemma evaluate_logs_itself declaration fuel e s :
  ∃ cs, calls (evaluate declaration (S fuel) e s).2 = calls s ++ CallEvaluate (nodeId e) :: cs.
Proof.
  set (s1 := logged (CallEvaluate (nodeId e)) s).
  assert (evaluate declaration (S fuel) e s =
          (modify (with_depth S) ;;
           scope_guard (with_depth pred)
             (accept declaration (evaluate declaration fuel) e ;;
              gets (lookupValue (nodeId e)))) s1) as -> by reflexivity.
  assert (appends (modify (with_depth S) ;;
                   scope_guard (with_depth pred)
                     (accept declaration (evaluate declaration fuel) e ;;
                      gets (lookupValue (nodeId e))))) as Hrest.
  { apply appends_bind; [by apply appends_modify | intros].
    apply appends_scope_guard; [done|].
    apply appends_bind; [apply appends_accept, appends_evaluate | intros; apply appends_gets]. }
  destruct (Hrest s1) as (cs & E). exists cs. rewrite E. unfold s1. simpl.
  by rewrite <- app_assoc.
Qed.

Lemma evaluate_calls_app n s cs s' :
  calls s' = calls s ++ CallEvaluate n :: cs →
  evaluate_calls n s < evaluate_calls n s'.
Proof.
  intros E. unfold evaluate_calls. rewrite E, List.filter_app, length_app. simpl.
  rewrite bool_decide_eq_true_2 by done. simpl. lia.
Qed.

Lemma endVisit_Identifier_reevaluates declaration fuel id loc d value ty s :
  declaration d = VariableDeclaration true (Some value) ty →
  evaluated (nodeId value) s = false → m_depth s ≤ 32 →
  ∃ cs, calls (endVisit_Identifier declaration (evaluate declaration (S fuel)) id loc (Some d)
                 s).2 = calls s ++ CallEvaluate (nodeId value) :: cs.
Proof.
  intros Hd Hev Hdepth. apply bool_decide_eq_false in Hev.
  rewrite (endVisit_Identifier_fresh _ _ _ _ _ value ty) by
    (done || by destruct (m_evaluations s !! nodeId value); [destruct Hev; eauto|]).
  rewrite bool_decide_eq_false_2 by lia.
  destruct (evaluate_logs_itself declaration fuel value s) as (cs & E).
  destruct (evaluate declaration (S fuel) value s) as [[a|e| |] s1];
    cbn [fst snd] in *; try by exists cs.
  exists cs. destruct (result (nodeId value) s1); [by rewrite setResult_calls | done].
Qed.

End Appends.

(** ** The binary and unary rules *)

Section Operators.

Context `{TypeSystem}.

Lemma fast_path_decide left_ right_ lt rt :
  bool_decide (category left_ = RationalNumber) &&
  bool_decide (category right_ = RationalNumber) &&
  bool_decide (category lt = Integer) &&
  bool_decide (category rt = Integer) = bool_decide (fast_path left_ right_ lt rt).
Proof.
  unfold fast_path. by rewrite !bool_decide_and, !andb_assoc.
Qed.

(** The binary rule once both operands are in the memo table. *)
Lemma endVisit_BinaryOperation_folded id loc op l r s lt rt left_ right_ :
  result (nodeId l) s = Some {| sourceType := Some lt; evaluatedValue := Some left_ |} →
  result (nodeId r) s = Some {| sourceType := Some rt; evaluatedValue := Some right_ |} →
  endVisit_BinaryOperation id loc op l r s =
  (if bool_decide (fast_path left_ right_ lt rt) then
     (print ("GETTING HERE" +:+ endl) ;;
      lhs <- deref (match left_ with RationalNumberType q => Some q | _ => None end) ;;
      rhs <- deref (match right_ with RationalNumberType q => Some q | _ => None end) ;;
      solAssert (negb (isFractional lhs)) ;;
      solAssert (negb (isFractional rhs)) ;;
      result <- evaluateBinary lhs rhs op loc ;;
      match result with
      | Some q =>
          modify (setResult id
            (Some {| sourceType := Some lt;
                     evaluatedValue := Some (TypeProvider.rationalNumber q) |}))
      | None => ret tt
      end)
   else
     (log (CallBinaryOperatorResult left_ op right_) ;;
      (if binaryOperatorResult left_ op right_ is None then
         fatalTypeError 6020 loc (message (incompatible_diagnostic loc op left_ right_))
       else ret tt) ;;
      modify (setValue id
        (if TokenTraits.isCompareOp op then Some TypeProvider.boolean
         else binaryOperatorResult left_ op right_))))
    (printed (operands_line lt rt) s).
Proof.
  intros Hl Hr.
  unfold endVisit_BinaryOperation, bind, gets, lookupValue, result, print, modify in *.
  rewrite Hl, Hr. cbn [evaluatedValue sourceType value_of ret deref_after].
  rewrite Hl. cbn [sourceType value_of ret deref_after].
  rewrite Hr. cbn [sourceType value_of ret deref_after].
  rewrite fast_path_decide. reflexivity.
Qed.

Lemma evaluateBinary_outcome l r op loc s s' :
  (evaluateBinary l r op loc s).1 = (evaluateBinary l r op loc s').1.
Proof.
  unfold evaluateBinary.
  destruct op; try reflexivity; repeat (case_match; try reflexivity).
Qed.

(** C5: on the general path, when the left value's [binaryOperatorResult]
    against the right value yields no type, one fatal diagnostic 6020 naming
    the operator and both operand types is reported, [FatalError] unwinds and
    the memo table is as before; when it yields a type, the node is offered
    to the memo table with the boolean type for a comparison operator and
    the resolved common type otherwise (the table takes the latter when it
    is a rational-number literal, and never the former). *)
Theorem binary_general_path id loc op l r s lt rt left_ right_ :
  result (nodeId l) s = Some {| sourceType := Some lt; evaluatedValue := Some left_ |} →
  result (nodeId r) s = Some {| sourceType := Some rt; evaluatedValue := Some right_ |} →
  ¬ fast_path left_ right_ lt rt →
  let s1 := logged (CallBinaryOperatorResult left_ op right_)
              (printed (operands_line lt rt) s) in
  match binaryOperatorResult left_ op right_ with
  | None =>
      endVisit_BinaryOperation id loc op l r s =
        (Thrown FatalError, report (incompatible_diagnostic loc op left_ right_) s1) ∧
      m_evaluations (endVisit_BinaryOperation id loc op l r s).2 = m_evaluations s ∧
      m_errorReporter (endVisit_BinaryOperation id loc op l r s).2 =
        m_errorReporter s ++ [incompatible_diagnostic loc op left_ right_] ∧
      message (incompatible_diagnostic loc op left_ right_) =
        "Operator " +:+ TokenTraits.toString op +:+ " not compatible with types "
        +:+ toString left_ +:+ " and " +:+ toString right_
  | Some commonType =>
      endVisit_BinaryOperation id loc op l r s =
        (Returned tt,
         setValue id
           (Some (if TokenTraits.isCompareOp op then TypeProvider.boolean else commonType))
           s1) ∧
      (TokenTraits.isCompareOp op = true →
       m_evaluations (endVisit_BinaryOperation id loc op l r s).2 = m_evaluations s) ∧
      (TokenTraits.isCompareOp op = false → category commonType = RationalNumber →
       result id (endVisit_BinaryOperation id loc op l r s).2 =
         Some {| sourceType := Some commonType; evaluatedValue := Some commonType |})
  end.
Proof.
  intros Hl Hr Hslow s1.
  rewrite (endVisit_BinaryOperation_folded _ _ _ _ _ _ _ _ _ _ Hl Hr).
  rewrite bool_decide_eq_false_2 by done.
  destruct (binaryOperatorResult left_ op right_) as [commonType|]; [|done].
  destruct (TokenTraits.isCompareOp op); (split; [done|]); split; try done.
  intros _ Hcat. unfold bind, log, modify, ret, setValue, setResult, result. simpl.
  rewrite decide_True by done. simpl. apply lookup_insert_eq.
Qed.

(** C7: on the fast path, when the fold of the two exact values yields [q],
    the node's entry has the left operand's source type and the literal type
    wrapping [q]. *)
Theorem binary_fast_path_typed_by_left id loc op l r s lt rt lv rv q :
  result (nodeId l) s =
    Some {| sourceType := Some lt; evaluatedValue := Some (RationalNumberType lv) |} →
  result (nodeId r) s =
    Some {| sourceType := Some rt; evaluatedValue := Some (RationalNumberType rv) |} →
  category lt = Integer → category rt = Integer →
  isFractional lv = false → isFractional rv = false →
  (evaluateBinary lv rv op loc s).1 = Returned (Some q) →
  (endVisit_BinaryOperation id loc op l r s).1 = Returned tt ∧
  result id (endVisit_BinaryOperation id loc op l r s).2 =
    Some {| sourceType := Some lt;
            evaluatedValue := Some (TypeProvider.rationalNumber q) |}.
Proof.
  intros Hl Hr Hlt Hrt Hlv Hrv Hq.
  rewrite (endVisit_BinaryOperation_folded _ _ _ _ _ _ _ _ _ _ Hl Hr).
  rewrite bool_decide_eq_true_2 by done.
  unfold bind, print, modify, deref. rewrite Hlv, Hrv. cbn [negb solAssert ret].
  rewrite (evaluateBinary_outcome lv rv op loc s
             (printed ("GETTING HERE" +:+ endl) (printed (operands_line lt rt) s))) in Hq.
  destruct (evaluateBinary lv rv op loc (printed _ _)) as [o s2]. simpl in Hq. subst o.
  split; [done|]. unfold result, setResult. simpl. apply lookup_insert_eq.
Qed.

(** C10: when the operand has a value and its [unaryOperatorResult] yields no
    type, the unary rule returns with the memo table and the diagnostics as
    they were; the binary rule in the same situation reports a fatal
    diagnostic. *)
Theorem unary_delegation_failure_is_silent id op sub s t :
  lookupValue (nodeId sub) s = Some t →
  unaryOperatorResult t op = None →
  endVisit_UnaryOperation id op sub s =
    (Returned tt, logged (CallUnaryOperatorResult t op) s) ∧
  m_evaluations (endVisit_UnaryOperation id op sub s).2 = m_evaluations s ∧
  m_errorReporter (endVisit_UnaryOperation id op sub s).2 = m_errorReporter s ∧
  (∀ loc l r lt rt left_ right_,
     result (nodeId l) s = Some {| sourceType := Some lt; evaluatedValue := Some left_ |} →
     result (nodeId r) s = Some {| sourceType := Some rt; evaluatedValue := Some right_ |} →
     ¬ fast_path left_ right_ lt rt →
     binaryOperatorResult left_ op right_ = None →
     (endVisit_BinaryOperation id loc op l r s).1 = Thrown FatalError ∧
     m_errorReporter (endVisit_BinaryOperation id loc op l r s).2 =
       m_errorReporter s ++ [incompatible_diagnostic loc op left_ right_]).
Proof.
  intros Hsub Hop.
  assert (endVisit_UnaryOperation id op sub s =
          (Returned tt, logged (CallUnaryOperatorResult t op) s)) as E.
  { unfold endVisit_UnaryOperation, bind, gets. rewrite Hsub.
    unfold log, modify. by rewrite Hop. }
  rewrite E. repeat (split; [done|]).
  intros loc l r lt rt left_ right_ Hl Hr Hslow Hnone.
  rewrite (endVisit_BinaryOperation_folded _ _ _ _ _ _ _ _ _ _ Hl Hr).
  rewrite bool_decide_eq_false_2 by done.
  unfold bind, log, modify. by rewrite Hnone.
Qed.

End Operators.

(** ** The memo table *)

Section Memo.

Context `{TypeSystem}.
Variable declaration : DeclId → Declaration.

Lemma setResult_stores n tv v s :
  evaluatedValue tv = Some v → category v = RationalNumber →
  setResult n (Some tv) s = with_evaluations <[n := tv]> s.
Proof.
  intros Hv Hcat. unfold setResult. rewrite Hv.
  rewrite decide_True by done. destruct tv; simpl in *. by subst.
Qed.

Lemma setResult_drops n r s :
  (∀ tv v, r = Some tv → evaluatedValue tv = Some v → category v ≠ RationalNumber) →
  setResult n r s = s.
Proof.
  intros Hr. unfold setResult. destruct r as [tv|]; [|done].
  destruct (evaluatedValue tv) as [v|] eqn:Hv; [|done].
  rewrite decide_False; [done|]. by eapply Hr.
Qed.

Lemma evaluate_returns_lookup fuel e s v :
  (evaluate declaration fuel e s).1 = Returned v →
  v = lookupValue (nodeId e) (evaluate declaration fuel e s).2.
Proof.
  destruct fuel as [|fuel]; [done|]. simpl.
  unfold scope_guard, bind, log, modify, gets. simpl.
  destruct (accept _ _ _ _) as [[[]|ex| |] s1]; simpl; try done.
  by intros [= <-].
Qed.

Lemma memo_ok_lookupValue n s :
  memo_ok (m_evaluations s) →
  lookupValue n s = None ∨ ∃ t, lookupValue n s = Some t ∧ category t = RationalNumber.
Proof.
  intros Hok. unfold lookupValue.
  destruct (m_evaluations s !! n) as [tv|] eqn:E; [|by left].
  destruct (Hok n tv E) as (v & Hv & Hcat). right. eauto.
Qed.

Lemma evaluate_keeps fuel e s : keeps s (evaluate declaration fuel e s).2.
Proof. apply (evaluate_rec_sound declaration fuel e s). Qed.

(** C6: [setResult] and [setValue] store an entry exactly when a result is
    given whose evaluated value is a rational-number literal, and leave the
    evaluator as it was otherwise (a boolean is never stored); so a table
    that holds only such entries, like the empty one, holds only such entries
    after any call of [evaluate], and what [evaluate] or a lookup of the
    value returns is such a literal or nothing. *)
Theorem memo_holds_rational_literals :
  (∀ n tv v s,
     evaluatedValue tv = Some v → category v = RationalNumber →
     setResult n (Some tv) s = with_evaluations <[n := tv]> s) ∧
  (∀ n r s,
     (∀ tv v, r = Some tv → evaluatedValue tv = Some v → category v ≠ RationalNumber) →
     setResult n r s = s) ∧
  (∀ n t s,
     category t = RationalNumber →
     setValue n (Some t) s =
     with_evaluations <[n := {| sourceType := Some t; evaluatedValue := Some t |}]> s) ∧
  (∀ n v s,
     (∀ t, v = Some t → category t ≠ RationalNumber) → setValue n v s = s) ∧
  (∀ n s, setValue n (Some TypeProvider.boolean) s = s) ∧
  memo_ok ∅ ∧
  (∀ fuel e s,
     memo_ok (m_evaluations s) →
     memo_ok (m_evaluations (evaluate declaration fuel e s).2) ∧
     (∀ v, (evaluate declaration fuel e s).1 = Returned v →
           v = None ∨ ∃ t, v = Some t ∧ category t = RationalNumber)) ∧
  (∀ n s,
     memo_ok (m_evaluations s) →
     lookupValue n s = None ∨ ∃ t, lookupValue n s = Some t ∧ category t = RationalNumber).
Proof.
  split; [exact setResult_stores|]. split; [exact setResult_drops|].
  split; [intros n t s Ht; by apply (setResult_stores _ _ t)|].
  split; [intros n v s Hv; apply setResult_drops; intros tv t' [= <-]; simpl; auto|].
  split; [done|]. split; [exact memo_ok_empty|].
  split; [|exact memo_ok_lookupValue].
  intros fuel e s Hok.
  pose proof (keeps_ok _ _ (evaluate_keeps fuel e s) Hok) as Hok'.
  split; [done|]. intros v Hv. apply evaluate_returns_lookup in Hv. subst v.
  by apply memo_ok_lookupValue.
Qed.

Lemma setResult_links id value ty r s :
  memo_ok (m_evaluations s) →
  result (nodeId value) s = Some r →
  ∀ tv,
    result (nodeId value)
      (setResult id (Some {| sourceType := ty; evaluatedValue := evaluatedValue r |}) s)
    = Some tv →
    result id
      (setResult id (Some {| sourceType := ty; evaluatedValue := evaluatedValue r |}) s)
    = Some {| sourceType := ty; evaluatedValue := evaluatedValue tv |}.
Proof.
  intros Hok Hr tv. destruct (Hok _ _ Hr) as (v & Hv & Hcat).
  rewrite (setResult_stores _ _ v) by done. unfold result in *. simpl.
  rewrite lookup_insert_eq, lookup_insert. case_decide.
  - by intros [= <-].
  - rewrite Hr. by intros [= <-].
Qed.

(** C8: an identifier that does not reference a constant variable
    declaration with an initializer leaves the evaluator as it was; one that
    does, once its rule has returned with the initializer in the memo table,
    has an entry whose source type is the declaration's type and whose value
    is the initializer's, and that value is what [evaluate] returns for
    it. *)
Theorem identifier_links_initializer :
  (∀ rec id loc ref s,
     (∀ d value ty, ref = Some d →
        declaration d ≠ VariableDeclaration true (Some value) ty) →
     endVisit_Identifier declaration rec id loc ref s = (Returned tt, s)) ∧
  (∀ fuel id loc d value ty s s',
     declaration d = VariableDeclaration true (Some value) ty →
     memo_ok (m_evaluations s) →
     endVisit_Identifier declaration (evaluate declaration fuel) id loc (Some d) s
       = (Returned tt, s') →
     ∀ tv, result (nodeId value) s' = Some tv →
       result id s' = Some {| sourceType := ty; evaluatedValue := evaluatedValue tv |}) ∧
  (∀ fuel id loc d value ty s v,
     declaration d = VariableDeclaration true (Some value) ty →
     memo_ok (m_evaluations s) →
     (evaluate declaration (S fuel) (Identifier id loc (Some d)) s).1 = Returned v →
     ∀ tv,
       result (nodeId value)
         (evaluate declaration (S fuel) (Identifier id loc (Some d)) s).2 = Some tv →
       v = evaluatedValue tv ∧
       lookupSourceType id
         (evaluate declaration (S fuel) (Identifier id loc (Some d)) s).2 = ty).
Proof.
  assert (∀ fuel id loc d value ty s s',
     declaration d = VariableDeclaration true (Some value) ty →
     memo_ok (m_evaluations s) →
     endVisit_Identifier declaration (evaluate declaration fuel) id loc (Some d) s
       = (Returned tt, s') →
     ∀ tv, result (nodeId value) s' = Some tv →
       result id s' = Some {| sourceType := ty; evaluatedValue := evaluatedValue tv |})
    as Hlink; [|split; [|split; [exact Hlink|]]].
  3: { intros fuel id loc d value ty s v Hd Hok. rewrite evaluate_Identifier.
       destruct (endVisit_Identifier _ _ _ _ _ _) as [[[]|e| |] s1] eqn:E; try done.
       simpl. intros [= <-] tv Htv.
       change (memo_ok (m_evaluations
                 (with_depth S (with_calls (λ l, l ++ [CallEvaluate id]) s)))) in Hok.
       apply (Hlink fuel id loc d value ty _ s1 Hd Hok E) in Htv.
       unfold lookupValue, lookupSourceType, result in *. simpl.
       by rewrite Htv. }
  2: { intros rec id loc [d|] s Hnot; [|done]. unfold endVisit_Identifier. simpl.
       destruct (declaration d) as [[] [value|] ty|] eqn:E; try done.
       by destruct (Hnot d value ty). }
  - intros fuel id loc d value ty s s' Hd Hok.
    destruct (m_evaluations s !! nodeId value) as [r|] eqn:Hm.
    + rewrite (endVisit_Identifier_memoized _ _ _ _ _ value ty) by eauto.
      intros [= <-]. unfold lookupValue. rewrite Hm. by apply setResult_links.
    + rewrite (endVisit_Identifier_fresh _ _ _ _ _ value ty) by done.
      case_bool_decide; [done|].
      pose proof (keeps_ok _ _ (evaluate_keeps fuel value s) Hok) as Hok1.
      destruct (evaluate declaration fuel value s) as [[a|e| |] s1]; try done.
      simpl in Hok1. intros [= <-].
      destruct (result (nodeId value) s1) as [r|] eqn:Hr.
      * by apply setResult_links.
      * intros tv. by rewrite Hr.
Qed.

(** C9, as the code has it: once the initializer of a constant is in the
    memo table, the rule for an identifier referencing it returns with the
    linked entry whatever the recursive call would do, logs no call, and a
    top-level [evaluate] of such an identifier logs only its own entry and
    returns the memoized value; no call of [evaluate] removes an entry.  An
    initializer that is not in the memo table when a reference to it is
    visited is evaluated again there, the call log growing by a call of
    [evaluate] on it, if the depth counter is at most 32; if it is greater,
    the reference raises the fatal diagnostic 5210 and evaluates nothing. *)
Theorem memoized_initializer_not_reevaluated :
  (∀ rec id loc d value ty s,
     declaration d = VariableDeclaration true (Some value) ty →
     evaluated (nodeId value) s = true →
     endVisit_Identifier declaration rec id loc (Some d) s =
       (Returned tt,
        setResult id
          (Some {| sourceType := ty; evaluatedValue := lookupValue (nodeId value) s |}) s) ∧
     calls (endVisit_Identifier declaration rec id loc (Some d) s).2 = calls s ∧
     m_errorReporter (endVisit_Identifier declaration rec id loc (Some d) s).2 =
       m_errorReporter s) ∧
  (∀ fuel id loc d value ty s,
     declaration d = VariableDeclaration true (Some value) ty →
     evaluated (nodeId value) s = true →
     memo_ok (m_evaluations s) →
     (evaluate declaration (S fuel) (Identifier id loc (Some d)) s).1 =
       Returned (lookupValue (nodeId value) s) ∧
     calls (evaluate declaration (S fuel) (Identifier id loc (Some d)) s).2 =
       calls s ++ [CallEvaluate id]) ∧
  (∀ fuel e s n,
     evaluated n s = true →
     evaluated n (evaluate declaration fuel e s).2 = true) ∧
  (∀ fuel id loc d value ty s,
     declaration d = VariableDeclaration true (Some value) ty →
     evaluated (nodeId value) s = false → m_depth s ≤ 32 →
     (∃ cs,
        calls (endVisit_Identifier declaration (evaluate declaration (S fuel)) id loc
                 (Some d) s).2 = calls s ++ CallEvaluate (nodeId value) :: cs) ∧
     evaluate_calls (nodeId value) s <
     evaluate_calls (nodeId value)
       (endVisit_Identifier declaration (evaluate declaration (S fuel)) id loc
          (Some d) s).2) ∧
  (∀ rec id loc d value ty s,
     declaration d = VariableDeclaration true (Some value) ty →
     evaluated (nodeId value) s = false → 32 < m_depth s →
     endVisit_Identifier declaration rec id loc (Some d) s =
       (Thrown FatalError, report (cyclic_diagnostic loc) s)).
Proof.
  assert (∀ n r s, calls (setResult n r s) = calls s ∧
                   m_errorReporter (setResult n r s) = m_errorReporter s) as Hsame.
  { intros n r s. unfold setResult. by repeat case_match. }
  split; [|split; [|split; [|split]]]; cycle 3.
  - intros fuel id loc d value ty s Hd Hev Hdepth.
    destruct (endVisit_Identifier_reevaluates declaration fuel id loc d value ty s)
      as (cs & E); [done ..|].
    split; [by exists cs | by eapply evaluate_calls_app].
  - intros rec id loc d value ty s Hd Hev Hdepth. apply bool_decide_eq_false in Hev.
    rewrite (endVisit_Identifier_fresh _ _ _ _ _ value ty); [|done|].
    + by rewrite bool_decide_eq_true_2.
    + destruct (m_evaluations s !! nodeId value); [destruct Hev; eauto | done].
  - intros rec id loc d value ty s Hd Hev. apply bool_decide_eq_true in Hev.
    rewrite (endVisit_Identifier_memoized _ _ _ _ _ value ty) by done.
    split; [done|]. apply Hsame.
  - intros fuel id loc d value ty s Hd Hev Hok. apply bool_decide_eq_true in Hev.
    rewrite evaluate_Identifier.
    rewrite (endVisit_Identifier_memoized _ _ _ _ _ value ty) by done.
    destruct Hev as [r Hr]. destruct (Hok _ _ Hr) as (v & Hv & Hcat).
    assert (lookupValue (nodeId value)
              (with_depth S (with_calls (λ l, l ++ [CallEvaluate id]) s)) = Some v) as ->.
    { unfold lookupValue. simpl. by rewrite Hr. }
    assert (lookupValue (nodeId value) s = Some v) as ->.
    { unfold lookupValue. by rewrite Hr. }
    rewrite (setResult_stores _ _ v) by done. simpl. split; [|done].
    unfold lookupValue. simpl. by rewrite lookup_insert_eq.
  - intros fuel e s n Hev. apply bool_decide_eq_true in Hev. apply bool_decide_eq_true.
    by apply (keeps_dom _ _ (evaluate_keeps fuel e s)).
Qed.

End Memo.

(** ** The properties at work on concrete programs *)

Section Runs.

Import Examples.

(** [a / b] with [b = 0] on the fast path: no diagnostic, [bad_rational]
    leaves [evaluate]; [a % b] reports once and yields nothing, and so does a
    sum over it. *)
Example division_by_zero_runs :
  let evaluate' := evaluate (H := literalTypes) constants 34 in
  (evaluate' (a_op_b Div) fresh).1 = Thrown bad_rational ∧
  m_errorReporter (evaluate' (a_op_b Div) fresh).2 = [] ∧
  (evaluate' (a_op_b Mod) fresh).1 = Returned None ∧
  m_errorReporter (evaluate' (a_op_b Mod) fresh).2 = [division_by_zero_diagnostic here] ∧
  (evaluate' (BinaryOperation 30 here Add (a_op_b Mod) (Identifier 31 here (Some 0))) fresh).1
    = Returned None ∧
  m_errorReporter
    (evaluate' (BinaryOperation 30 here Add (a_op_b Mod) (Identifier 31 here (Some 0))) fresh).2
    = [division_by_zero_diagnostic here].
Proof. vm_compute. repeat split. Qed.

(** A fatal type error in a subexpression leaves the top-level call. *)
Example incompatible_operands_run :
  let evaluate' := evaluate (H := literalTypes) constants 34 in
  let e := UnaryOperation 5 here Sub
             (BinaryOperation 1 here Div (number 2 7) (number 3 0)) in
  (evaluate' e fresh).1 = Thrown FatalError ∧
  m_errorReporter (evaluate' e fresh).2 =
    [incompatible_diagnostic (H := literalTypes) here Div (int_const 7) (int_const 0)] ∧
  m_depth (evaluate' e fresh).2 = 0.
Proof. vm_compute. repeat split. Qed.

End Runs.

Lemma binary_general_path_witness :
  let endVisit := λ op,
    endVisit_BinaryOperation (H := Examples.literalTypes) 1 Examples.here op
      (Examples.number 2 7) (Examples.number 3 0) Examples.after_literals in
  (endVisit Div).1 = Thrown FatalError ∧
  m_evaluations (endVisit Div).2 = m_evaluations Examples.after_literals ∧
  (endVisit LessThan).1 = Returned tt ∧
  (endVisit Add).1 = Returned tt ∧
  lookupValue 1 (endVisit Add).2 = Some (Examples.int_const 7).
Proof.
  assert (¬ fast_path (Examples.int_const 7) (Examples.int_const 0)
              (Examples.int_const 7) (Examples.int_const 0)) as Hslow.
  { intros (_ & _ & Hc & _). discriminate Hc. }
  pose proof (λ op,
    binary_general_path (H := Examples.literalTypes) 1 Examples.here op
      (Examples.number 2 7) (Examples.number 3 0) Examples.after_literals
      (Examples.int_const 7) (Examples.int_const 0)
      (Examples.int_const 7) (Examples.int_const 0) eq_refl eq_refl Hslow) as W.
  cbv zeta. split; [|split; [|split; [|split]]].
  - destruct (W Div) as [-> _]. reflexivity.
  - destruct (W Div) as [-> _]. reflexivity.
  - destruct (W LessThan) as [-> _]. reflexivity.
  - destruct (W Add) as [-> _]. reflexivity.
  - destruct (W Add) as [-> _]. reflexivity.
Defined.

Lemma memo_holds_rational_literals_witness :
  let run := evaluate (H := Examples.literalTypes) Examples.constants 34
               (Examples.a_op_b Add) Examples.fresh in
  memo_ok (m_evaluations run.2) ∧
  (∀ v, run.1 = Returned v → v = None ∨ ∃ t, v = Some t ∧ category t = RationalNumber).
Proof.
  destruct (memo_holds_rational_literals (H := Examples.literalTypes) Examples.constants)
    as (_ & _ & _ & _ & _ & Hempty & Hevaluate & _).
  apply (Hevaluate 34 (Examples.a_op_b Add) Examples.fresh). exact Hempty.
Defined.

Lemma binary_fast_path_typed_by_left_witness :
  result 1
    (endVisit_BinaryOperation (H := Examples.literalTypes) 1 Examples.here Add
       (Identifier 2 Examples.here (Some 0)) (Identifier 3 Examples.here (Some 1))
       Examples.after_a_b).2
  = Some {| sourceType := Some Examples.uint256;
            evaluatedValue := Some (Examples.int_const 7) |}.
Proof.
  apply (binary_fast_path_typed_by_left (H := Examples.literalTypes) 1 Examples.here Add
           (Identifier 2 Examples.here (Some 0)) (Identifier 3 Examples.here (Some 1))
           Examples.after_a_b Examples.uint256 Examples.uint256
           (Rational.of_int 7) (Rational.of_int 0) (Rational.of_int 7));
    reflexivity.
Defined.

Lemma identifier_links_initializer_witness :
  result 2
    (endVisit_Identifier Examples.constants
       (evaluate (H := Examples.literalTypes) Examples.constants 34)
       2 Examples.here (Some 0) Examples.fresh).2
  = Some {| sourceType := Some Examples.uint256;
            evaluatedValue := Some (Examples.int_const 7) |}.
Proof.
  apply (proj1 (proj2 (identifier_links_initializer (H := Examples.literalTypes)
                         Examples.constants))
           34 2 Examples.here 0 (Examples.number 10 7) (Some Examples.uint256)
           Examples.fresh _ eq_refl memo_ok_empty eq_refl
           {| sourceType := Some (Examples.int_const 7);
              evaluatedValue := Some (Examples.int_const 7) |}).
  reflexivity.
Defined.

Lemma memoized_initializer_not_reevaluated_witness :
  let rec := λ _ : Expression, throw InternalCompilerError in
  (endVisit_Identifier Examples.constants rec 5 Examples.here (Some 0) Examples.after_a_b).1
    = Returned tt ∧
  calls (endVisit_Identifier Examples.constants rec 5 Examples.here (Some 0)
           Examples.after_a_b).2
    = calls Examples.after_a_b.
Proof.
  intros rec.
  destruct (proj1 (memoized_initializer_not_reevaluated (H := Examples.literalTypes)
                     Examples.constants)
              rec 5 Examples.here 0 (Examples.number 10 7) (Some Examples.uint256)
              Examples.after_a_b eq_refl eq_refl) as (E & Hcalls & _).
  split; [exact (f_equal fst E) | exact Hcalls].
Defined.

Lemma unary_delegation_failure_is_silent_witness :
  endVisit_UnaryOperation (H := Examples.literalTypes) 4 Not (Examples.number 2 7)
    Examples.after_literals
  = (Returned tt,
     logged (CallUnaryOperatorResult (Examples.int_const 7) Not) Examples.after_literals).
Proof.
  apply (unary_delegation_failure_is_silent (H := Examples.literalTypes) 4 Not
           (Examples.number 2 7) Examples.after_literals (Examples.int_const 7));
    reflexivity.
Defined.

(** C9 as stated fails when the initializer does not fold to a literal:
    [bool constant c = 1 < 2] leaves no entry, so the second reference
    evaluates the initializer (node 12) again and calls
    [binaryOperatorResult] again. *)
Lemma unfolded_initializer_evaluated_twice :
  Examples.c_twice.1 = Returned None ∧
  evaluate_calls 12 Examples.c_twice.2 = 2 ∧
  delegation_calls Examples.c_twice.2 = 2 ∧
  evaluated 12 Examples.c_twice.2 = false.
Proof. vm_compute. repeat split. Qed.

(** After those two references the initializer of [c] (node 12) still has no
    entry; a third reference visited with the depth counter at 33 raises the
    fatal diagnostic 5210 and does not evaluate it. *)
Example unfolded_initializer_at_depth_33 :
  let s := with_depth (λ _, 33) Examples.c_twice.2 in
  let r :=
    endVisit_Identifier Examples.constants
      (evaluate (H := Examples.literalTypes) Examples.constants 34)
      22 Examples.here (Some 2) s in
  r = (Thrown FatalError, report (cyclic_diagnostic Examples.here) s) ∧
  evaluate_calls 12 r.2 = 2.
Proof. vm_compute. repeat split. Qed.

(** * Further properties *)

(** ** Literals, tuples and operands *)

Section Literals.
Context `{TypeSystem}.
Variable declaration : DeclId → Declaration.

Lemma evaluate_Literal fuel id loc t s :
  evaluate declaration (S fuel) (Literal id loc t) s =
  (Returned (lookupValue id (setValue id t (entered id s))),
   with_depth pred (setValue id t (entered id s))).
Proof. reflexivity. Qed.

Lemma with_depth_pred_setResult n r s :
  with_depth pred (setResult n r (entered n s)) = setResult n r (logged (CallEvaluate n) s).
Proof.
  unfold setResult, entered. repeat case_match; try by destruct s.
Qed.

(** X1: evaluating a literal whose type is a rational-number literal returns
    that type and stores it as both source type and value; for a literal of
    any other type, or of none, nothing is stored and the call returns what
    the table already held for the node. *)
Theorem literal_folds_iff_rational fuel id loc t s :
  (∀ v, t = Some v → category v = RationalNumber →
     evaluate declaration (S fuel) (Literal id loc t) s =
     (Returned (Some v),
      with_evaluations <[id := {| sourceType := Some v; evaluatedValue := Some v |}]>
        (logged (CallEvaluate id) s))) ∧
  ((∀ v, t = Some v → category v ≠ RationalNumber) →
     evaluate declaration (S fuel) (Literal id loc t) s =
     (Returned (lookupValue id s), logged (CallEvaluate id) s)).
Proof.
  rewrite evaluate_Literal. unfold setValue. rewrite with_depth_pred_setResult. split.
  - intros v -> Hcat. rewrite !(setResult_stores _ _ v) by done.
    unfold lookupValue. simpl. by rewrite lookup_insert_eq.
  - intros Hnot.
    rewrite !setResult_drops by (intros tv v [= <-] Hv; simpl in *; by apply Hnot).
    done.
Qed.
End Literals.

Section Rules.
Context `{TypeSystem}.
Variable declaration : DeclId → Declaration.

(** X2: a tuple with one component that is not an inline array takes the
    value of its component, as value and as source type (the component's own
    source type is not carried over), and nothing when the component has no
    value; an inline array or a tuple of another size is left without a
    result.  Evaluating such a grouping returns the component's value. *)
Theorem tuple_forwards_value id s :
  (∀ front v,
     lookupValue (nodeId front) s = Some v → category v = RationalNumber →
     endVisit_TupleExpression id false [front] s =
     (Returned tt,
      with_evaluations <[id := {| sourceType := Some v; evaluatedValue := Some v |}]> s)) ∧
  (∀ front,
     lookupValue (nodeId front) s = None →
     endVisit_TupleExpression id false [front] s = (Returned tt, s)) ∧
  (∀ isInlineArray components,
     isInlineArray = true ∨ length components ≠ 1 →
     endVisit_TupleExpression id isInlineArray components s = (Returned tt, s)) ∧
  (∀ fuel loc e s2 v,
     accept declaration (evaluate declaration fuel) e (entered id s) = (Returned tt, s2) →
     lookupValue (nodeId e) s2 = Some v → category v = RationalNumber →
     (evaluate declaration (S fuel) (TupleExpression id loc false [e]) s).1 =
       Returned (Some v) ∧
     lookupSourceType id (evaluate declaration (S fuel) (TupleExpression id loc false [e]) s).2 =
       Some v).
Proof.
  assert (∀ front v s,
     lookupValue (nodeId front) s = Some v → category v = RationalNumber →
     endVisit_TupleExpression id false [front] s =
     (Returned tt,
      with_evaluations <[id := {| sourceType := Some v; evaluatedValue := Some v |}]> s))
    as Hfwd.
  { intros front v s' Hv Hcat. unfold endVisit_TupleExpression. simpl.
    unfold bind, gets, modify. rewrite Hv. unfold setValue.
    by rewrite (setResult_stores _ _ v). }
  split; [intros; by apply Hfwd|]. split; [|split].
  - intros front Hv. unfold endVisit_TupleExpression. simpl.
    unfold bind, gets, modify. by rewrite Hv.
  - intros inl cs [->|Hlen]; unfold endVisit_TupleExpression; [done|].
    rewrite (bool_decide_eq_false_2 _ Hlen). by rewrite andb_false_r.
  - intros fuel loc e s2 v Hacc Hv Hcat.
    assert (evaluate declaration (S fuel) (TupleExpression id loc false [e]) s =
            (Returned (Some v),
             with_depth pred
               (with_evaluations
                  <[id := {| sourceType := Some v; evaluatedValue := Some v |}]> s2)))
      as ->.
    { change (evaluate declaration (S fuel) (TupleExpression id loc false [e]) s)
        with (scope_guard (with_depth pred)
                (((accept declaration (evaluate declaration fuel) e ;; ret tt) ;;
                  endVisit_TupleExpression id false [e]) ;;
                 gets (lookupValue id)) (entered id s)).
      unfold scope_guard, bind. rewrite Hacc. unfold ret.
      rewrite (Hfwd e v s2 Hv Hcat). unfold gets, lookupValue. simpl.
      by rewrite lookup_insert_eq. }
    unfold lookupSourceType. simpl. by rewrite lookup_insert_eq.
Qed.

(** X3: when an operand of a binary operation has no value, the binary rule
    does nothing: no entry, no diagnostic, no output, no call of the type
    system. *)
Theorem binary_operand_missing id loc op l r s :
  lookupValue (nodeId l) s = None ∨ lookupValue (nodeId r) s = None →
  endVisit_BinaryOperation id loc op l r s = (Returned tt, s).
Proof.
  intros Hmiss. unfold endVisit_BinaryOperation, bind, gets.
  destruct (lookupValue (nodeId l) s) as [lv|], (lookupValue (nodeId r) s) as [rv|];
    try done. by destruct Hmiss.
Qed.

(** X4: the unary rule does nothing when its operand has no value, not even
    call the type system; when the operand has one, the rule stores what
    [unaryOperatorResult] gives if that is a rational-number literal, typed by
    itself, and nothing otherwise. *)
Theorem unary_follows_operand id op sub s :
  (lookupValue (nodeId sub) s = None →
   endVisit_UnaryOperation id op sub s = (Returned tt, s)) ∧
  (∀ t u,
     lookupValue (nodeId sub) s = Some t → unaryOperatorResult t op = Some u →
     category u = RationalNumber →
     endVisit_UnaryOperation id op sub s =
     (Returned tt,
      with_evaluations <[id := {| sourceType := Some u; evaluatedValue := Some u |}]>
        (logged (CallUnaryOperatorResult t op) s))) ∧
  (∀ t u,
     lookupValue (nodeId sub) s = Some t → unaryOperatorResult t op = Some u →
     category u ≠ RationalNumber →
     endVisit_UnaryOperation id op sub s =
     (Returned tt, logged (CallUnaryOperatorResult t op) s)).
Proof.
  unfold endVisit_UnaryOperation, bind, gets, log, modify, setValue.
  split; [by intros ->|]. split; intros t u -> -> Hcat.
  - by rewrite (setResult_stores _ _ u).
  - by rewrite setResult_drops by (by intros tv v [= <-] [= <-]).
Qed.

End Rules.

Section FastPathFailures.
Context `{TypeSystem}.

Lemma evaluateBinary_unsupported l r op loc s :
  folded_operator op = false →
  evaluateBinary l r op loc s = (Thrown InternalCompilerError, printed (todo_line l r op) s).
Proof. by destruct op. Qed.

(** X5: on the fast path an operator [evaluateBinary] has no case for
    (a comparison, a shift, an exponentiation, ...) ends in
    [InternalCompilerError], with no entry stored, no diagnostic reported and
    the type system not asked. *)
Theorem fast_path_unsupported_operator id loc op l r s lt rt lv rv :
  result (nodeId l) s =
    Some {| sourceType := Some lt; evaluatedValue := Some (RationalNumberType lv) |} →
  result (nodeId r) s =
    Some {| sourceType := Some rt; evaluatedValue := Some (RationalNumberType rv) |} →
  category lt = Integer → category rt = Integer →
  isFractional lv = false → isFractional rv = false →
  folded_operator op = false →
  endVisit_BinaryOperation id loc op l r s =
    (Thrown InternalCompilerError,
     printed (todo_line lv rv op)
       (printed ("GETTING HERE" +:+ endl) (printed (operands_line lt rt) s))) ∧
  m_evaluations (endVisit_BinaryOperation id loc op l r s).2 = m_evaluations s ∧
  m_errorReporter (endVisit_BinaryOperation id loc op l r s).2 = m_errorReporter s ∧
  calls (endVisit_BinaryOperation id loc op l r s).2 = calls s.
Proof.
  intros Hl Hr Hlt Hrt Hlv Hrv Hop.
  rewrite (endVisit_BinaryOperation_folded _ _ _ _ _ _ _ _ _ _ Hl Hr).
  rewrite bool_decide_eq_true_2 by done.
  unfold bind, print, modify, deref. rewrite Hlv, Hrv. cbn [negb solAssert ret].
  by rewrite evaluateBinary_unsupported.
Qed.

(** X6: on the fast path an operand whose value is fractional ends in
    [InternalCompilerError] before any fold, with no entry stored and no
    diagnostic reported. *)
Theorem fast_path_fractional_operand id loc op l r s lt rt lv rv :
  result (nodeId l) s =
    Some {| sourceType := Some lt; evaluatedValue := Some (RationalNumberType lv) |} →
  result (nodeId r) s =
    Some {| sourceType := Some rt; evaluatedValue := Some (RationalNumberType rv) |} →
  category lt = Integer → category rt = Integer →
  isFractional lv = true ∨ isFractional rv = true →
  endVisit_BinaryOperation id loc op l r s =
    (Thrown InternalCompilerError,
     printed ("GETTING HERE" +:+ endl) (printed (operands_line lt rt) s)) ∧
  m_evaluations (endVisit_BinaryOperation id loc op l r s).2 = m_evaluations s ∧
  m_errorReporter (endVisit_BinaryOperation id loc op l r s).2 = m_errorReporter s.
Proof.
  intros Hl Hr Hlt Hrt Hfrac.
  rewrite (endVisit_BinaryOperation_folded _ _ _ _ _ _ _ _ _ _ Hl Hr).
  rewrite bool_decide_eq_true_2 by done.
  unfold bind, print, modify, deref.
  destruct (isFractional lv) eqn:Hlv; cbn [negb solAssert ret throw]; [done|].
  destruct Hfrac as [?| ->]; done.
Qed.

(** X7: when both operands have a value and the entry of one of them has a
    null source type, the binary rule dereferences that null pointer in the
    middle of its output statement: for a null left source type the stream
    has received [BinaryOperation: left: ], for a null right one that text,
    the left source type and [ right: ]; nothing is stored or reported and
    the type system is not asked. *)
Theorem null_source_type_is_dereferenced id loc op l r s tvl tvr :
  result (nodeId l) s = Some tvl → result (nodeId r) s = Some tvr →
  is_Some (evaluatedValue tvl) → is_Some (evaluatedValue tvr) →
  (sourceType tvl = None →
   endVisit_BinaryOperation id loc op l r s =
     (NullDereference, printed ("BinaryOperation:" +:+ " left: ") s)) ∧
  (∀ lt, sourceType tvl = Some lt → sourceType tvr = None →
   endVisit_BinaryOperation id loc op l r s =
     (NullDereference,
      printed ("BinaryOperation:" +:+ " left: " +:+ toString lt +:+ " right: ") s)).
Proof.
  intros Hl Hr [lv Hlv] [rv Hrv].
  unfold endVisit_BinaryOperation, bind, gets, lookupValue, result in *.
  rewrite Hl, Hr, Hlv, Hrv. cbn [value_of ret]. rewrite Hl. cbn [value_of ret].
  rewrite Hr. cbn [value_of ret].
  split.
  - intros ->. reflexivity.
  - intros lt -> ->. reflexivity.
Qed.

End FastPathFailures.

(** X8: the fold of two integral values, whenever it yields a value, yields
    an integral one: results of the fast path pass the fast path's own
    integrality check. *)
Theorem fast_path_result_is_integral lv rv op loc s q :
  isFractional lv = false → isFractional rv = false →
  (evaluateBinary lv rv op loc s).1 = Returned (Some q) →
  isFractional q = false.
Proof.
  destruct lv as [a da], rv as [b db]. unfold isFractional. simpl.
  intros Ha Hb. apply negb_false_iff, Z.eqb_eq in Ha, Hb. subst da db.
  change (mk_rational a 1) with (Rational.of_int a).
  change (mk_rational b 1) with (Rational.of_int b).
  assert (∀ z, negb (denominator (Rational.of_int z) =? 1)%Z = false) as Hint by done.
  destruct op; try done; unfold evaluateBinary.
  - intros [= <-]. apply Hint.
  - intros [= <-]. apply Hint.
  - intros [= <-]. apply Hint.
  - intros [= <-]. unfold Rational.add, Rational.of_int. cbn [numerator denominator].
    rewrite !Z.mul_1_r, normalize_integral. apply Hint.
  - intros [= <-]. unfold Rational.sub, Rational.of_int. cbn [numerator denominator].
    rewrite !Z.mul_1_r, normalize_integral. apply Hint.
  - intros [= <-]. unfold Rational.mul, Rational.of_int. cbn [numerator denominator].
    rewrite !Z.mul_1_r, normalize_integral. apply Hint.
  - destruct (Rational.div _ _); [|done]. intros [= <-]. apply Hint.
  - destruct (Rational.eqb _ _); [done|]. simpl. intros [= <-]. apply Hint.
Qed.

Local Open Scope Z_scope.

Section ExactFolds.
Import Rational.

Lemma to_Q_add a b : wf a → wf b → (to_Q (add a b) == to_Q a + to_Q b)%Q.
Proof.
  intros [Ha _] [Hb _]. unfold add. rewrite normalize_Q by nia.
  unfold to_Q, Qeq, Qplus. simpl.
  rewrite !Pos2Z.inj_mul, !Z2Pos.id by nia. ring.
Qed.

Lemma add_wf a b : wf a → wf b → wf (add a b).
Proof. intros [Ha _] [Hb _]. apply normalize_wf. nia. Qed.

Lemma sub_wf a b : wf a → wf b → wf (sub a b).
Proof. intros [Ha _] [Hb _]. apply normalize_wf. nia. Qed.

(** X9: on rationals in lowest terms, fractional ones included, the fold of
    addition, subtraction and multiplication leaves the evaluator as it was
    and returns the exact sum, difference and product, again in lowest
    terms. *)
Theorem evaluateBinary_exact (l r : rational) (loc : SourceLocation) (s : ConstantEvaluator) :
  wf l → wf r →
  ∃ qa qs qm,
    evaluateBinary l r Add loc s = (Returned (Some qa), s) ∧
    evaluateBinary l r Sub loc s = (Returned (Some qs), s) ∧
    evaluateBinary l r Mul loc s = (Returned (Some qm), s) ∧
    wf qa ∧ wf qs ∧ wf qm ∧
    (to_Q qa == to_Q l + to_Q r)%Q ∧
    (to_Q qs == to_Q l - to_Q r)%Q ∧
    (to_Q qm == to_Q l * to_Q r)%Q.
Proof.
  intros Hl Hr. exists (add l r), (sub l r), (mul l r).
  repeat (split; [reflexivity|]).
  auto 10 using add_wf, sub_wf, mul_wf, to_Q_add, to_Q_sub, to_Q_mul.
Qed.

(** X10: on rationals in lowest terms with a non-zero divisor, the division
    fold returns the integer that the exact quotient truncates to, for
    fractional operands as well. *)
Theorem evaluateBinary_division_truncates (l r : rational) (loc : SourceLocation)
    (s : ConstantEvaluator) :
  wf l → wf r → numerator r ≠ 0 →
  evaluateBinary l r Div loc s =
    (Returned (Some (of_int (truncate (to_Q l / to_Q r)))), s).
Proof.
  intros Hl Hr Hn. unfold evaluateBinary. rewrite div_Some by done.
  rewrite normalize_quot by (destruct Hl, Hr; nia).
  by rewrite truncate_div.
Qed.

Lemma rem_square_lt n d : d ≠ 0 → Z.rem n d * Z.rem n d < d * d.
Proof. intros Hd. pose proof (Z.rem_bound_abs n d Hd). nia. Qed.

(** X11: on rationals in lowest terms with a non-zero right operand, the
    modulo fold returns the remainder of the cross products over the common
    denominator; it has the sign of the left operand (or is zero) and is
    smaller in magnitude than the right operand. *)
Theorem evaluateBinary_modulo_bounds (l r : rational) (loc : SourceLocation)
    (s : ConstantEvaluator) :
  wf l → wf r → numerator r ≠ 0 →
  ∃ res,
    evaluateBinary l r Mod loc s = (Returned (Some res), s) ∧
    (to_Q res ==
     Qmake (Z.rem (numerator l * denominator r) (denominator l * numerator r))
           (Z.to_pos (denominator l * denominator r)))%Q ∧
    (0 <= to_Q res * to_Q l)%Q ∧
    (to_Q res * to_Q res < to_Q r * to_Q r)%Q.
Proof.
  intros Hl Hr Hn.
  assert (0 < denominator l ∧ 0 < denominator r) as [Hdl Hdr] by (destruct Hl, Hr; done).
  assert (denominator l * numerator r ≠ 0) as HD by nia.
  set (N := numerator l * denominator r). set (D := denominator l * numerator r).
  assert (∃ res, evaluateBinary l r Mod loc s = (Returned (Some res), s) ∧
                 (to_Q res == Qmake (Z.rem N D)
                                (Z.to_pos (denominator l * denominator r)))%Q)
    as (res & E & Hres).
  { unfold evaluateBinary. rewrite eqb_zero by done.
    rewrite bool_decide_eq_false_2 by done.
    destruct (Z.eqb_spec (denominator l) 1) as [El|El];
      [destruct (Z.eqb_spec (denominator r) 1) as [Er|Er]|]; cbn [andb].
    - eexists. split; [reflexivity|]. subst N D. rewrite El, Er.
      by rewrite !Z.mul_1_r, !Z.mul_1_l.
    - rewrite div_Some by done. eexists. split; [reflexivity|].
      rewrite normalize_quot by done. fold N D.
      rewrite to_Q_sub, to_Q_mul, to_Q_of_int by auto using mul_wf, of_int_wf.
      rewrite (Z.rem_eq N D) by done.
      unfold to_Q, Qeq, Qminus, Qplus, Qopp, Qmult, inject_Z. simpl.
      rewrite !Pos2Z.inj_mul, !Z2Pos.id by nia. subst N D. ring.
    - rewrite div_Some by done. eexists. split; [reflexivity|].
      rewrite normalize_quot by done. fold N D.
      rewrite to_Q_sub, to_Q_mul, to_Q_of_int by auto using mul_wf, of_int_wf.
      rewrite (Z.rem_eq N D) by done.
      unfold to_Q, Qeq, Qminus, Qplus, Qopp, Qmult, inject_Z. simpl.
      rewrite !Pos2Z.inj_mul, !Z2Pos.id by nia. subst N D. ring. }
  exists res. split; [done|]. split; [done|].
  pose proof (Z.rem_sign_mul N D HD) as Hsign.
  pose proof (rem_square_lt N D HD) as Hsq.
  rewrite Hres. split.
  - unfold to_Q, Qle, Qmult. simpl. rewrite Z.mul_1_r.
    subst N. nia.
  - unfold to_Q, Qlt, Qmult. simpl.
    rewrite !Pos2Z.inj_mul, !Z2Pos.id by nia. subst D. nia.
Qed.

End ExactFolds.

Local Open Scope nat_scope.

Section Table.

(** X12: a storable result written with [setResult] is what every lookup of
    the node then returns; a second storable write replaces it, a write that
    is not storable leaves it in place, and entries of other nodes are never
    touched. *)
Theorem setResult_round_trip n s :
  (∀ tv, storable tv →
     result n (setResult n (Some tv) s) = Some tv ∧
     evaluated n (setResult n (Some tv) s) = true ∧
     lookupValue n (setResult n (Some tv) s) = evaluatedValue tv ∧
     lookupSourceType n (setResult n (Some tv) s) = sourceType tv) ∧
  (∀ tv tv', storable tv → storable tv' →
     result n (setResult n (Some tv') (setResult n (Some tv) s)) = Some tv') ∧
  (∀ tv r, storable tv → (∀ tv', r = Some tv' → ¬ storable tv') →
     result n (setResult n r (setResult n (Some tv) s)) = Some tv) ∧
  (∀ n' r, n ≠ n' → result n' (setResult n r s) = result n' s).
Proof.
  assert (∀ tv s', storable tv → result n (setResult n (Some tv) s') = Some tv) as Hget.
  { intros tv s' (v & Hv & Hcat). rewrite (setResult_stores _ _ v) by done.
    unfold result. simpl. by rewrite lookup_insert_eq. }
  split; [|split; [|split]].
  - intros tv Htv. pose proof (Hget tv s Htv) as E. unfold result in E.
    unfold evaluated, lookupValue, lookupSourceType. rewrite E.
    split; [done|]. split; [|done]. apply bool_decide_eq_true. eauto.
  - intros tv tv' _ Htv'. by apply Hget.
  - intros tv r Htv Hr. rewrite (setResult_drops n r).
    + by apply Hget.
    + intros tv' v -> Hv Hcat. apply (Hr tv' eq_refl). by exists v.
  - intros n' r Hne. unfold setResult, result. repeat case_match; try done.
    simpl. by rewrite lookup_insert_ne.
Qed.

(** X13: in a table that holds only rational-number entries, [evaluated]
    says exactly whether the lookup of the value is non-null; a node that is
    not evaluated has no result, no source type and no value. *)
Theorem evaluated_iff_value n s :
  memo_ok (m_evaluations s) →
  (evaluated n s = true ↔ is_Some (lookupValue n s)) ∧
  (evaluated n s = false →
   result n s = None ∧ lookupSourceType n s = None ∧ lookupValue n s = None).
Proof.
  intros Hok. unfold evaluated, lookupValue, lookupSourceType, result. split; [split|].
  - intros Hev. apply bool_decide_eq_true in Hev as [tv Htv].
    destruct (Hok n tv Htv) as (v & Hv & _). rewrite Htv, Hv. eauto.
  - intros Hv. apply bool_decide_eq_true. destruct (_ !! _); [eauto | by destruct Hv].
  - intros Hev. apply bool_decide_eq_false in Hev.
    destruct (_ !! _); [destruct Hev; eauto | done].
Qed.

End Table.

Section OneShot.
Context `{TypeSystem}.
Variable declaration : DeclId → Declaration.

(** X14: the one-shot entry point keeps the diagnostics it was given as a
    prefix of those it leaves, ends with a memo table of rational-number
    entries, returns a rational-number literal or null, leaves the depth
    counter at 0 on every exit, and comes to an end: 34 units of fuel cover
    the 33 nested evaluations the depth check lets through. *)
Theorem evaluate_static_outcome fuel errors e :
  let r := evaluate_static declaration fuel errors e in
  errors `prefix_of` m_errorReporter r.2 ∧
  memo_ok (m_evaluations r.2) ∧
  (∀ v, r.1 = Returned v → v = None ∨ ∃ t, v = Some t ∧ category t = RationalNumber) ∧
  (exits r.1 → m_depth r.2 = 0) ∧
  (34 ≤ fuel → r.1 ≠ OutOfFuel).
Proof.
  unfold evaluate_static.
  destruct (evaluate_rec_sound declaration fuel e (construct errors ∅))
    as ([Hok Hdom Herr] & Hdepth & Hfuel).
  cbv zeta. split; [exact Herr|]. split; [apply Hok, memo_ok_empty|].
  split; [|split; [exact Hdepth|]].
  - intros v Hv. apply evaluate_returns_lookup in Hv. subst v.
    apply memo_ok_lookupValue, Hok, memo_ok_empty.
  - intros Hle. apply Hfuel; simpl; lia.
Qed.

End OneShot.

Lemma evaluateBinary_of_int op x y z loc s :
  integer_fold op x y = Some z →
  evaluateBinary (Rational.of_int x) (Rational.of_int y) op loc s =
  (Returned (Some (Rational.of_int z)), s).
Proof.
  unfold evaluateBinary, Rational.add, Rational.sub, Rational.mul, Rational.of_int.
  destruct op; try done; cbn [integer_fold numerator denominator];
    try (intros [= <-]; by rewrite ?Z.mul_1_r, ?normalize_integral).
  - destruct (Z.eqb_spec y 0) as [|Hy]; [done|]. intros [= <-].
    change (mk_rational x 1) with (Rational.of_int x).
    change (mk_rational y 1) with (Rational.of_int y).
    rewrite div_Some by done. rewrite normalize_quot by (simpl; lia).
    simpl. by rewrite Z.mul_1_r, Z.mul_1_l.
  - destruct (Z.eqb_spec y 0) as [|Hy]; [done|]. intros [= <-].
    unfold Rational.eqb. simpl. by rewrite (proj2 (Z.eqb_neq y 0) Hy).
Qed.

Section EndToEnd.
Context `{TypeSystem}.
Variable declaration : DeclId → Declaration.

Lemma evaluate_BinaryOperation fuel id loc op l r s :
  evaluate declaration (S fuel) (BinaryOperation id loc op l r) s =
  scope_guard (with_depth pred)
    ((accept declaration (evaluate declaration fuel) l ;;
      accept declaration (evaluate declaration fuel) r ;;
      endVisit_BinaryOperation id loc op l r) ;;
     gets (lookupValue id)) (entered id s).
Proof. reflexivity. Qed.

(** The identifier rule on a constant whose initializer is a rational
    literal not yet in the memo table. *)
Lemma accept_literal_constant fuel i loc d il lloc q ty s :
  declaration d =
    VariableDeclaration true (Some (Literal il lloc (Some (RationalNumberType q)))) ty →
  m_evaluations s !! il = None → m_depth s ≤ 32 →
  accept declaration (evaluate declaration (S fuel)) (Identifier i loc (Some d)) s =
  (Returned tt,
   with_evaluations
     <[i := {| sourceType := ty; evaluatedValue := Some (RationalNumberType q) |}]>
     (with_evaluations
        <[il := {| sourceType := Some (RationalNumberType q);
                   evaluatedValue := Some (RationalNumberType q) |}]>
        (logged (CallEvaluate il) s))).
Proof.
  intros Hd Hm Hdepth. cbn [accept].
  rewrite (endVisit_Identifier_fresh _ _ _ _ _ _ ty _ Hd) by done.
  rewrite bool_decide_eq_false_2 by lia.
  rewrite evaluate_Literal. unfold setValue. rewrite with_depth_pred_setResult.
  rewrite (setResult_stores _ _ (RationalNumberType q)) by done.
  unfold result. cbn [nodeId m_evaluations with_evaluations].
  rewrite lookup_insert_eq. cbn [evaluatedValue].
  by rewrite (setResult_stores _ _ (RationalNumberType q)).
Qed.

Lemma constants_fold_run fuel id loc op i1 l1 i2 l2 da db ia la ib lb x y z ta tb s :
  declaration da =
    VariableDeclaration true
      (Some (Literal ia la (Some (RationalNumberType (Rational.of_int x))))) (Some ta) →
  declaration db =
    VariableDeclaration true
      (Some (Literal ib lb (Some (RationalNumberType (Rational.of_int y))))) (Some tb) →
  category ta = Integer → category tb = Integer →
  ib ≠ ia → ib ≠ i1 → i1 ≠ i2 →
  m_evaluations s !! ia = None → m_evaluations s !! ib = None → m_depth s < 32 →
  integer_fold op x y = Some z →
  ∃ s',
    evaluate declaration (S (S fuel))
      (BinaryOperation id loc op (Identifier i1 l1 (Some da)) (Identifier i2 l2 (Some db))) s
    = (Returned (Some (RationalNumberType (Rational.of_int z))), s') ∧
    result id s' =
      Some {| sourceType := Some ta;
              evaluatedValue := Some (RationalNumberType (Rational.of_int z)) |} ∧
    m_errorReporter s' = m_errorReporter s ∧
    m_depth s' = m_depth s.
Proof.
  intros Hda Hdb Hta Htb Hba Hb1 H12 Hma Hmb Hdepth Hfold.
  rewrite evaluate_BinaryOperation. unfold scope_guard. unfold bind at 1. unfold bind at 1.
  rewrite (accept_literal_constant _ _ _ _ _ _ _ _ _ Hda) by (done || (simpl; lia)).
  unfold bind at 1.
  rewrite (accept_literal_constant _ _ _ _ _ _ _ _ _ Hdb);
    [|cbn [m_evaluations with_evaluations logged with_calls entered with_depth];
      by rewrite !lookup_insert_ne by done
     |simpl; lia].
  match goal with |- context [endVisit_BinaryOperation _ _ _ _ _ ?st] => set (s5 := st) end.
  assert (result i1 s5 = Some {| sourceType := Some ta;
            evaluatedValue := Some (RationalNumberType (Rational.of_int x)) |}) as Hl.
  { unfold result. subst s5. simpl. rewrite !lookup_insert_ne by done.
    by rewrite lookup_insert_eq. }
  assert (result i2 s5 = Some {| sourceType := Some tb;
            evaluatedValue := Some (RationalNumberType (Rational.of_int y)) |}) as Hr.
  { unfold result. subst s5. simpl. by rewrite lookup_insert_eq. }
  rewrite (endVisit_BinaryOperation_folded id loc op
             (Identifier i1 l1 (Some da)) (Identifier i2 l2 (Some db)) s5 _ _ _ _ Hl Hr).
  rewrite bool_decide_eq_true_2 by done.
  unfold bind, print, modify, deref.
  change (isFractional (Rational.of_int x)) with false.
  change (isFractional (Rational.of_int y)) with false.
  cbn [negb solAssert ret].
  rewrite (evaluateBinary_of_int _ _ _ _ _ _ Hfold).
  rewrite (setResult_stores _ _ (RationalNumberType (Rational.of_int z))) by done.
  unfold gets, lookupValue, result. simpl. rewrite lookup_insert_eq.
  eexists. split; [reflexivity|]. simpl. by rewrite lookup_insert_eq.
Qed.

(** X15: for two distinct constants of integer type initialized with integer
    literals [x] and [y] that have no memo entry yet, evaluating [a op b]
    from a depth below 32 folds the two initializers, takes the fast path
    and returns the literal of [x op y] computed in integer arithmetic, typed
    by the left constant's type, with no diagnostic and the depth counter
    restored. *)
Theorem constants_fold_end_to_end fuel id loc op i1 l1 i2 l2 da db ia la ib lb x y z ta tb s :
  declaration da =
    VariableDeclaration true
      (Some (Literal ia la (Some (RationalNumberType (Rational.of_int x))))) (Some ta) →
  declaration db =
    VariableDeclaration true
      (Some (Literal ib lb (Some (RationalNumberType (Rational.of_int y))))) (Some tb) →
  category ta = Integer → category tb = Integer →
  ib ≠ ia → ib ≠ i1 → i1 ≠ i2 →
  m_evaluations s !! ia = None → m_evaluations s !! ib = None → m_depth s < 32 →
  integer_fold op x y = Some z →
  let e := BinaryOperation id loc op (Identifier i1 l1 (Some da)) (Identifier i2 l2 (Some db)) in
  let r := evaluate declaration (S (S fuel)) e s in
  r.1 = Returned (Some (RationalNumberType (Rational.of_int z))) ∧
  result id r.2 =
    Some {| sourceType := Some ta;
            evaluatedValue := Some (RationalNumberType (Rational.of_int z)) |} ∧
  m_errorReporter r.2 = m_errorReporter s ∧
  m_depth r.2 = m_depth s.
Proof.
  intros Hda Hdb Hta Htb Hba Hb1 H12 Hma Hmb Hdepth Hfold e r.
  destruct (constants_fold_run fuel id loc op i1 l1 i2 l2 da db ia la ib lb x y z ta tb s)
    as (s' & E & Hres & Herr & Hd); try done.
  subst r e. by rewrite E.
Qed.

End EndToEnd.

Section NullSafe.
Context `{TypeSystem}.

Lemma null_safe_ret {A} (a : A) : null_safe (ret a).
Proof. by intros s Hs. Qed.

Lemma null_safe_throw {A} e : e ≠ bad_optional_access → null_safe (@throw A e).
Proof. intros He s Hs. simpl. split; [done|]. split; [done|]. by intros [= ->]. Qed.

Lemma null_safe_gets {A} (f : ConstantEvaluator → A) : null_safe (gets f).
Proof. by intros s Hs. Qed.

Lemma null_safe_modify f :
  (∀ s, memo_typed (m_evaluations s) → memo_typed (m_evaluations (f s))) →
  null_safe (modify f).
Proof. intros Hf s Hs. simpl. split; [by apply Hf | done]. Qed.

Lemma null_safe_deref {A} (a : A) : null_safe (deref (Some a)).
Proof. by intros s Hs. Qed.

Lemma null_safe_bind {A B} (m : M A) (f : A → M B) :
  null_safe m → (∀ a, null_safe (f a)) → null_safe (bind m f).
Proof.
  intros Hm Hf s Hs. destruct (Hm s Hs) as (Ht & Hnull & Hopt). unfold bind.
  destruct (m s) as [[a|e| |] s1]; simpl in *; try done.
  - by apply Hf.
  - split; [done|]. split; [done|]. intros [= ->]. done.
Qed.

Lemma null_safe_solAssert b : null_safe (solAssert b).
Proof. destruct b; [apply null_safe_ret | by apply null_safe_throw]. Qed.

Lemma null_safe_typeError id loc msg : null_safe (typeError id loc msg).
Proof. by apply null_safe_modify. Qed.

Lemma null_safe_fatalTypeError id loc msg : null_safe (fatalTypeError id loc msg).
Proof.
  apply null_safe_bind; [by apply null_safe_modify | intros; by apply null_safe_throw].
Qed.

Lemma null_safe_print line : null_safe (print line).
Proof. by apply null_safe_modify. Qed.

Lemma null_safe_log c : null_safe (log c).
Proof. by apply null_safe_modify. Qed.

Lemma memo_typed_setResult n tv s :
  is_Some (sourceType tv) →
  memo_typed (m_evaluations s) → memo_typed (m_evaluations (setResult n (Some tv) s)).
Proof.
  intros Hsrc Hs. unfold setResult. destruct (evaluatedValue tv) as [v|] eqn:Hv; [|done].
  case_decide; [|done]. simpl. intros n' tv'. rewrite lookup_insert. case_decide.
  - intros [= <-]. split; [done|]. by exists v.
  - apply Hs.
Qed.

Lemma null_safe_setResult n tv :
  is_Some (sourceType tv) → null_safe (modify (setResult n (Some tv))).
Proof. intros Hsrc. apply null_safe_modify. intros s. by apply memo_typed_setResult. Qed.

Lemma null_safe_setValue n v : null_safe (modify (setValue n v)).
Proof.
  apply null_safe_modify. intros s Hs. unfold setValue.
  destruct v as [t|]; [by apply memo_typed_setResult|done].
Qed.

Ltac null_safe_step :=
  first
    [ apply null_safe_ret | apply null_safe_gets | apply null_safe_deref
    | apply null_safe_solAssert | apply null_safe_typeError
    | apply null_safe_fatalTypeError | apply null_safe_print | apply null_safe_log
    | apply null_safe_setValue
    | apply null_safe_setResult; by eauto
    | apply null_safe_throw; done
    | apply null_safe_bind; [|intros ?]
    | case_match ].

Lemma null_safe_evaluateBinary l r op loc : null_safe (evaluateBinary l r op loc).
Proof. unfold evaluateBinary. repeat null_safe_step. Qed.

Lemma null_safe_endVisit_UnaryOperation id op sub :
  null_safe (endVisit_UnaryOperation id op sub).
Proof. unfold endVisit_UnaryOperation. repeat null_safe_step. Qed.

Lemma null_safe_endVisit_TupleExpression id inl cs :
  null_safe (endVisit_TupleExpression id inl cs).
Proof. unfold endVisit_TupleExpression. repeat null_safe_step. Qed.

Lemma memo_typed_entry n v s :
  memo_typed (m_evaluations s) → lookupValue n s = Some v →
  ∃ lt, result n s = Some {| sourceType := Some lt; evaluatedValue := Some v |}.
Proof.
  intros Hs. unfold lookupValue, result.
  destruct (m_evaluations s !! n) as [[src val]|] eqn:E; [|done]. simpl. intros ->.
  destruct (Hs n _ E) as [[lt Hlt] _]. simpl in Hlt. subst src. by exists lt.
Qed.

Lemma null_safe_endVisit_BinaryOperation id loc op l r :
  null_safe (endVisit_BinaryOperation id loc op l r).
Proof.
  intros s Hs.
  destruct (lookupValue (nodeId l) s) as [left_|] eqn:Hlv;
    [destruct (lookupValue (nodeId r) s) as [right_|] eqn:Hrv|].
  - destruct (memo_typed_entry _ _ _ Hs Hlv) as (lt & Hl).
    destruct (memo_typed_entry _ _ _ Hs Hrv) as (rt & Hr).
    rewrite (endVisit_BinaryOperation_folded _ _ _ _ _ _ _ _ _ _ Hl Hr).
    match goal with
    | |- memo_typed (m_evaluations (?m ?s0).2) ∧ _ =>
        cut (null_safe m); [intros Hm; by apply (Hm s0)|]
    end.
    clear s Hs Hlv Hrv Hl Hr.
    case_bool_decide as Hfast.
    + destruct Hfast as (Hcl & Hcr & _ & _).
      destruct left_; try discriminate Hcl. destruct right_; try discriminate Hcr.
      repeat first [apply null_safe_evaluateBinary | null_safe_step].
    + repeat null_safe_step.
  - unfold endVisit_BinaryOperation, bind, gets. rewrite Hlv, Hrv. done.
  - unfold endVisit_BinaryOperation, bind, gets. rewrite Hlv. by destruct (lookupValue _ _).
Qed.

Lemma null_safe_endVisit_Identifier declaration rec id loc ref :
  declarations_typed declaration → (∀ e, null_safe (rec e)) →
  null_safe (endVisit_Identifier declaration rec id loc ref).
Proof.
  intros Hdecl Hrec. unfold endVisit_Identifier.
  destruct ref as [d|]; [|apply null_safe_ret]. simpl.
  destruct (declaration d) as [[] [value|] ty|] eqn:Hd; try apply null_safe_ret.
  destruct (Hdecl d value ty Hd) as [t ->].
  repeat first [apply Hrec | null_safe_step].
Qed.

Lemma null_safe_for_each {A} (f : A → M unit) (l : list A) :
  Forall (λ x, null_safe (f x)) l → null_safe (for_each f l).
Proof.
  induction 1 as [|x l Hx _ IH]; simpl; [apply null_safe_ret|].
  apply null_safe_bind; [done | intros; apply IH].
Qed.

Lemma null_safe_accept declaration rec e :
  declarations_typed declaration → (∀ e, null_safe (rec e)) →
  null_safe (accept declaration rec e).
Proof.
  intros Hdecl Hrec. induction e using Expression_nested_ind; simpl.
  - apply null_safe_setValue.
  - apply null_safe_bind; [done | intros; apply null_safe_endVisit_UnaryOperation].
  - apply null_safe_bind; [done | intros].
    apply null_safe_bind; [done | intros; apply null_safe_endVisit_BinaryOperation].
  - by apply null_safe_endVisit_Identifier.
  - apply null_safe_bind;
      [by apply null_safe_for_each | intros; apply null_safe_endVisit_TupleExpression].
  - by apply null_safe_for_each.
Qed.

Lemma null_safe_evaluate declaration fuel e :
  declarations_typed declaration → null_safe (evaluate declaration fuel e).
Proof.
  intros Hdecl. revert e. induction fuel as [|fuel IH]; intros e.
  - by intros s Hs.
  - simpl. apply null_safe_bind; [apply null_safe_log | intros].
    apply null_safe_bind; [by apply null_safe_modify | intros].
    intros s Hs. unfold scope_guard.
    assert (null_safe (accept declaration (evaluate declaration fuel) e ;;
                       gets (lookupValue (nodeId e)))) as Hbody.
    { apply null_safe_bind; [by apply null_safe_accept | intros; apply null_safe_gets]. }
    destruct (Hbody s Hs) as (Ht & Hnull & Hopt).
    destruct ((accept declaration (evaluate declaration fuel) e ;;
               gets (lookupValue (nodeId e))) s) as [[v|ex| |] s1]; simpl in *; done.
Qed.

(** X16: when every constant with an initializer has its type annotation set
    and every memo entry has a source type and a rational-number value,
    [evaluate] never dereferences a null pointer and never reads an empty
    optional, and the memo table stays that way. *)
Theorem evaluate_is_null_safe declaration fuel e s :
  declarations_typed declaration →
  memo_typed (m_evaluations s) →
  (evaluate declaration fuel e s).1 ≠ NullDereference ∧
  (evaluate declaration fuel e s).1 ≠ Thrown bad_optional_access ∧
  memo_typed (m_evaluations (evaluate declaration fuel e s).2).
Proof.
  intros Hdecl Hs. destruct (null_safe_evaluate declaration fuel e Hdecl s Hs) as (?&?&?).
  done.
Qed.

End NullSafe.

Section Reports.
Context `{TypeSystem}.

Lemma reports_quiet {A} (o : Outcome A) s s' :
  m_errorReporter s' = m_errorReporter s → o ≠ Thrown FatalError → reports s (o, s').
Proof.
  intros E Ho. exists []. simpl. rewrite app_nil_r. split; [done|].
  destruct o as [a|[]| |]; try done; constructor.
Qed.

Lemma reports_well_ret {A} (a : A) : reports_well (ret a).
Proof. intros s. by apply reports_quiet. Qed.

Lemma reports_well_throw {A} e : e ≠ FatalError → reports_well (@throw A e).
Proof. intros He s. apply reports_quiet; [done|]. by intros [= ->]. Qed.

Lemma reports_well_gets {A} (f : ConstantEvaluator → A) : reports_well (gets f).
Proof. intros s. by apply reports_quiet. Qed.

Lemma reports_well_deref {A} (p : option A) : reports_well (deref p).
Proof. intros s. destruct p; by apply reports_quiet. Qed.

Lemma reports_well_modify f :
  (∀ s, m_errorReporter (f s) = m_errorReporter s) → reports_well (modify f).
Proof. intros Hf s. by apply reports_quiet. Qed.

Lemma reports_well_bind {A B} (m : M A) (f : A → M B) :
  reports_well m → (∀ a, reports_well (f a)) → reports_well (bind m f).
Proof.
  intros Hm Hf s. destruct (Hm s) as (l1 & E1 & H1). unfold bind.
  destruct (m s) as [[a|e| |] s1]; simpl in *.
  - destruct (Hf a s1) as (l2 & E2 & H2). exists (l1 ++ l2).
    rewrite E2, E1, app_assoc. split; [done|].
    destruct (f a s1) as [[b|[]| |] s2]; simpl in *;
      try (by apply Forall_app).
    destruct H2 as (l' & d & -> & Hl' & Hd). exists (l1 ++ l'), d.
    rewrite app_assoc. split; [done|]. split; [by apply Forall_app | done].
  - exists l1. split; [done|]. by destruct e.
  - by exists l1.
  - by exists l1.
Qed.

Lemma reports_well_deref_after {A} written (p : option A) :
  reports_well (deref_after written p).
Proof.
  destruct p; simpl; [apply reports_well_ret|].
  apply reports_well_bind; [by apply reports_well_modify | intros; apply reports_well_deref].
Qed.

Lemma reports_well_value_of {A} (o : option A) : reports_well (value_of o).
Proof. destruct o; [apply reports_well_ret | by apply reports_well_throw]. Qed.

Lemma reports_well_solAssert b : reports_well (solAssert b).
Proof. destruct b; [apply reports_well_ret | by apply reports_well_throw]. Qed.

Lemma reports_well_typeError id loc msg : reports_well (typeError id loc msg).
Proof. intros s. eexists [_]. simpl. split; [done|]. by repeat constructor. Qed.

Lemma reports_well_fatalTypeError id loc msg : reports_well (fatalTypeError id loc msg).
Proof.
  intros s. eexists [_]. simpl. split; [done|]. eexists [], _. by repeat constructor.
Qed.

Lemma setResult_errors n r s : m_errorReporter (setResult n r s) = m_errorReporter s.
Proof. unfold setResult. by repeat case_match. Qed.

Ltac reports_step :=
  first
    [ apply reports_well_ret | apply reports_well_gets | apply reports_well_deref
    | apply reports_well_deref_after | apply reports_well_value_of | apply reports_well_solAssert
    | apply reports_well_typeError | apply reports_well_fatalTypeError
    | apply reports_well_modify; intros; first [done | apply setResult_errors]
    | apply reports_well_throw; done
    | apply reports_well_bind; [|intros ?]
    | case_match ].

Lemma reports_well_evaluateBinary l r op loc : reports_well (evaluateBinary l r op loc).
Proof. unfold evaluateBinary, print. repeat reports_step. Qed.

Lemma reports_well_endVisit_UnaryOperation id op sub :
  reports_well (endVisit_UnaryOperation id op sub).
Proof. unfold endVisit_UnaryOperation, log, setValue. repeat reports_step. Qed.

Lemma reports_well_endVisit_BinaryOperation id loc op l r :
  reports_well (endVisit_BinaryOperation id loc op l r).
Proof.
  unfold endVisit_BinaryOperation, log, print, setValue. cbv zeta.
  repeat first [apply reports_well_evaluateBinary | reports_step].
Qed.

Lemma reports_well_endVisit_TupleExpression id inl cs :
  reports_well (endVisit_TupleExpression id inl cs).
Proof. unfold endVisit_TupleExpression, setValue. repeat reports_step. Qed.

Lemma reports_well_endVisit_Identifier declaration rec id loc ref :
  (∀ e, reports_well (rec e)) →
  reports_well (endVisit_Identifier declaration rec id loc ref).
Proof.
  intros Hrec. unfold endVisit_Identifier.
  repeat first [apply Hrec | reports_step].
Qed.

Lemma reports_well_for_each {A} (f : A → M unit) (l : list A) :
  Forall (λ x, reports_well (f x)) l → reports_well (for_each f l).
Proof.
  induction 1 as [|x l Hx _ IH]; simpl; [apply reports_well_ret|].
  apply reports_well_bind; [done | intros; apply IH].
Qed.

Lemma reports_well_accept declaration rec e :
  (∀ e, reports_well (rec e)) → reports_well (accept declaration rec e).
Proof.
  intros Hrec. induction e using Expression_nested_ind; simpl.
  - unfold endVisit_Literal, setValue. reports_step.
  - apply reports_well_bind; [done | intros; apply reports_well_endVisit_UnaryOperation].
  - apply reports_well_bind; [done | intros].
    apply reports_well_bind; [done | intros; apply reports_well_endVisit_BinaryOperation].
  - by apply reports_well_endVisit_Identifier.
  - apply reports_well_bind;
      [by apply reports_well_for_each | intros; apply reports_well_endVisit_TupleExpression].
  - by apply reports_well_for_each.
Qed.

Lemma reports_well_evaluate declaration fuel e :
  reports_well (evaluate declaration fuel e).
Proof.
  revert e. induction fuel as [|fuel IH]; intros e.
  - intros s. by apply reports_quiet.
  - simpl. unfold log. apply reports_well_bind; [by apply reports_well_modify | intros].
    apply reports_well_bind; [by apply reports_well_modify | intros].
    intros s. unfold scope_guard.
    assert (reports_well (accept declaration (evaluate declaration fuel) e ;;
                          gets (lookupValue (nodeId e)))) as Hbody.
    { apply reports_well_bind; [by apply reports_well_accept | intros; apply reports_well_gets]. }
    specialize (Hbody s).
    destruct ((accept declaration (evaluate declaration fuel) e ;;
               gets (lookupValue (nodeId e))) s) as [[v|ex| |] s1]; done.
Qed.

(** X17: the diagnostics a call of [evaluate] adds come after those already
    reported and are all recoverable, unless the call is left by
    [FatalError]; then exactly the last one is fatal. *)
Theorem fatal_diagnostic_iff_FatalError declaration fuel e s :
  ∃ l,
    m_errorReporter (evaluate declaration fuel e s).2 = m_errorReporter s ++ l ∧
    ((evaluate declaration fuel e s).1 ≠ Thrown FatalError → recoverable_only l) ∧
    ((evaluate declaration fuel e s).1 = Thrown FatalError →
     ∃ l' d, l = l' ++ [d] ∧ recoverable_only l' ∧ severity d = Fatal).
Proof.
  destruct (reports_well_evaluate declaration fuel e s) as (l & E & Hl).
  exists l. split; [done|].
  destruct (evaluate declaration fuel e s) as [[v|[]| |] s1]; simpl in *; split; done.
Qed.

End Reports.

(** ** Reference cycles and chains *)

Section Cycles.

Context `{TypeSystem}.
Variable declaration : DeclId → Declaration.












End Cycles.






(** Both orders of the cycle [a = 1 + b; b = (a)]. *)
Example sum_cycle_runs :
  let run := λ d,
    evaluate (H := Examples.literalTypes) Examples.sum_cycle 34
      (Identifier 1 Examples.here (Some d)) Examples.fresh in
  (run 0).1 = Thrown FatalError ∧ (run 1).1 = Thrown FatalError ∧
  m_errorReporter (run 0).2 = [cyclic_diagnostic Examples.here] ∧
  m_errorReporter (run 1).2 = [cyclic_diagnostic Examples.here].
Proof. vm_compute. repeat split. Qed.

(** In a session in which the second constant of the chain of 33 has been
    evaluated, the tail is in the memo table and the head folds too. *)
Example chain_head_folds_in_a_used_session :
  let evaluate' := evaluate (H := Examples.literalTypes) (Examples.chain 33) 34 in
  let run :=
    (evaluate' (Identifier 1 Examples.here (Some 1)) ;;
     evaluate' (Identifier 2 Examples.here (Some 0))) Examples.fresh in
  run.1 = Returned (Some (Examples.int_const 1)) ∧ m_errorReporter run.2 = [].
Proof. vm_compute. repeat split. Qed.

(** ** The further properties at work on concrete programs *)

Lemma literal_folds_iff_rational_witness :
  evaluate (H := Examples.literalTypes) Examples.constants 1 (Examples.number 2 7)
    Examples.fresh =
  (Returned (Some (Examples.int_const 7)),
   with_evaluations
     <[2 := {| sourceType := Some (Examples.int_const 7);
               evaluatedValue := Some (Examples.int_const 7) |}]>
     (logged (CallEvaluate 2) Examples.fresh)) ∧
  evaluate (H := Examples.literalTypes) Examples.constants 1
    (Literal 2 Examples.here (Some BoolType)) Examples.fresh =
  (Returned (lookupValue 2 Examples.fresh), logged (CallEvaluate 2) Examples.fresh).
Proof.
  split.
  - apply (proj1 (literal_folds_iff_rational (H := Examples.literalTypes) Examples.constants
                    0 2 Examples.here (Some (Examples.int_const 7)) Examples.fresh)
             (Examples.int_const 7)); reflexivity.
  - apply (proj2 (literal_folds_iff_rational (H := Examples.literalTypes) Examples.constants
                    0 2 Examples.here (Some BoolType) Examples.fresh)).
    intros v [= <-]. discriminate.
Defined.

Lemma tuple_forwards_value_witness :
  endVisit_TupleExpression 4 false [Identifier 2 Examples.here (Some 0)] Examples.after_a_b =
  (Returned tt,
   with_evaluations
     <[4 := {| sourceType := Some (Examples.int_const 7);
               evaluatedValue := Some (Examples.int_const 7) |}]> Examples.after_a_b) ∧
  endVisit_TupleExpression 4 false
    [Identifier 2 Examples.here (Some 0); Identifier 3 Examples.here (Some 1)]
    Examples.after_a_b = (Returned tt, Examples.after_a_b).
Proof.
  destruct (tuple_forwards_value (H := Examples.literalTypes) Examples.constants 4
              Examples.after_a_b) as (Hone & _ & Hother & _).
  split.
  - apply (Hone (Identifier 2 Examples.here (Some 0)) (Examples.int_const 7)); reflexivity.
  - apply Hother. right. simpl. lia.
Defined.

Lemma binary_operand_missing_witness :
  endVisit_BinaryOperation (H := Examples.literalTypes) 1 Examples.here Add
    (Identifier 9 Examples.here (Some 3)) (Examples.number 3 0) Examples.after_literals =
  (Returned tt, Examples.after_literals).
Proof.
  apply (binary_operand_missing (H := Examples.literalTypes)). left. reflexivity.
Defined.

Lemma unary_follows_operand_witness :
  endVisit_UnaryOperation (H := Examples.literalTypes) 4 Sub (Examples.number 2 7)
    Examples.after_literals =
  (Returned tt,
   with_evaluations
     <[4 := {| sourceType := Some (Examples.int_const (-7));
               evaluatedValue := Some (Examples.int_const (-7)) |}]>
     (logged (CallUnaryOperatorResult (Examples.int_const 7) Sub) Examples.after_literals)).
Proof.
  apply (proj1 (proj2 (unary_follows_operand (H := Examples.literalTypes) 4 Sub
                         (Examples.number 2 7) Examples.after_literals))
           (Examples.int_const 7) (Examples.int_const (-7))); reflexivity.
Defined.

Lemma fast_path_unsupported_operator_witness :
  (endVisit_BinaryOperation (H := Examples.literalTypes) 1 Examples.here LessThan
     (Identifier 2 Examples.here (Some 0)) (Identifier 3 Examples.here (Some 1))
     Examples.after_a_b).1 = Thrown InternalCompilerError.
Proof.
  destruct (fast_path_unsupported_operator (H := Examples.literalTypes) 1 Examples.here
              LessThan (Identifier 2 Examples.here (Some 0))
              (Identifier 3 Examples.here (Some 1)) Examples.after_a_b
              Examples.uint256 Examples.uint256 (Rational.of_int 7) (Rational.of_int 0))
    as (E & _); [reflexivity .. | exact (f_equal fst E)].
Defined.

Lemma fast_path_fractional_operand_witness :
  (endVisit_BinaryOperation (H := Examples.literalTypes) 1 Examples.here Add
     (Identifier 2 Examples.here None) (Identifier 3 Examples.here None)
     Sessions.fractional).1 = Thrown InternalCompilerError.
Proof.
  destruct (fast_path_fractional_operand (H := Examples.literalTypes) 1 Examples.here Add
              (Identifier 2 Examples.here None) (Identifier 3 Examples.here None)
              Sessions.fractional Examples.uint256 Examples.uint256
              (mk_rational 1 2) (Rational.of_int 3))
    as (E & _); [reflexivity .. | left; reflexivity | exact (f_equal fst E)].
Defined.

Lemma null_source_type_is_dereferenced_witness :
  endVisit_BinaryOperation (H := Examples.literalTypes) 1 Examples.here Add
    (Identifier 2 Examples.here None) (Identifier 3 Examples.here None) Sessions.untyped =
  (NullDereference, printed ("BinaryOperation:" +:+ " left: ") Sessions.untyped) ∧
  endVisit_BinaryOperation (H := Examples.literalTypes) 1 Examples.here Add
    (Identifier 3 Examples.here None) (Identifier 2 Examples.here None) Sessions.untyped =
  (NullDereference,
   printed ("BinaryOperation:" +:+ " left: "
            +:+ toString (TypeSystem := Examples.literalTypes) Examples.uint256
            +:+ " right: ")
     Sessions.untyped).
Proof.
  split.
  - apply (null_source_type_is_dereferenced (H := Examples.literalTypes) 1 Examples.here Add
             (Identifier 2 Examples.here None) (Identifier 3 Examples.here None)
             Sessions.untyped
             {| sourceType := None; evaluatedValue := Some (Examples.int_const 7) |}
             {| sourceType := Some Examples.uint256;
                evaluatedValue := Some (Examples.int_const 3) |});
      [reflexivity | reflexivity | simpl; eauto | simpl; eauto | reflexivity].
  - apply (null_source_type_is_dereferenced (H := Examples.literalTypes) 1 Examples.here Add
             (Identifier 3 Examples.here None) (Identifier 2 Examples.here None)
             Sessions.untyped
             {| sourceType := Some Examples.uint256;
                evaluatedValue := Some (Examples.int_const 3) |}
             {| sourceType := None; evaluatedValue := Some (Examples.int_const 7) |});
      [reflexivity | reflexivity | simpl; eauto | simpl; eauto | reflexivity | reflexivity].
Defined.

Lemma fast_path_result_is_integral_witness :
  isFractional (Rational.of_int 3) = false.
Proof.
  apply (fast_path_result_is_integral (Rational.of_int 7) (Rational.of_int 2) Div
           Examples.here Examples.fresh (Rational.of_int 3)); reflexivity.
Defined.

Lemma evaluateBinary_exact_witness :
  ∃ qa qs qm,
    evaluateBinary (mk_rational 1 2) (mk_rational 1 3) Add Examples.here Examples.fresh
      = (Returned (Some qa), Examples.fresh) ∧
    evaluateBinary (mk_rational 1 2) (mk_rational 1 3) Sub Examples.here Examples.fresh
      = (Returned (Some qs), Examples.fresh) ∧
    evaluateBinary (mk_rational 1 2) (mk_rational 1 3) Mul Examples.here Examples.fresh
      = (Returned (Some qm), Examples.fresh) ∧
    Rational.wf qa ∧ Rational.wf qs ∧ Rational.wf qm ∧
    (Rational.to_Q qa == Rational.to_Q (mk_rational 1 2) + Rational.to_Q (mk_rational 1 3))%Q ∧
    (Rational.to_Q qs == Rational.to_Q (mk_rational 1 2) - Rational.to_Q (mk_rational 1 3))%Q ∧
    (Rational.to_Q qm == Rational.to_Q (mk_rational 1 2) * Rational.to_Q (mk_rational 1 3))%Q.
Proof.
  apply (evaluateBinary_exact (mk_rational 1 2) (mk_rational 1 3) Examples.here Examples.fresh).
  - split; [simpl; lia | reflexivity].
  - split; [simpl; lia | reflexivity].
Defined.

Lemma evaluateBinary_division_truncates_witness :
  evaluateBinary (mk_rational 7 2) (mk_rational (-3) 4) Div Examples.here Examples.fresh =
  (Returned (Some (Rational.of_int (-4))), Examples.fresh).
Proof.
  apply (evaluateBinary_division_truncates (mk_rational 7 2) (mk_rational (-3) 4)
           Examples.here Examples.fresh).
  - split; [simpl; lia | reflexivity].
  - split; [simpl; lia | reflexivity].
  - simpl. lia.
Defined.

Lemma evaluateBinary_modulo_bounds_witness :
  ∃ res,
    evaluateBinary (mk_rational 7 2) (mk_rational (-3) 4) Mod Examples.here Examples.fresh
      = (Returned (Some res), Examples.fresh) ∧
    (0 <= Rational.to_Q res * Rational.to_Q (mk_rational 7 2))%Q ∧
    (Rational.to_Q res * Rational.to_Q res <
     Rational.to_Q (mk_rational (-3) 4) * Rational.to_Q (mk_rational (-3) 4))%Q.
Proof.
  destruct (evaluateBinary_modulo_bounds (mk_rational 7 2) (mk_rational (-3) 4)
              Examples.here Examples.fresh) as (res & E & _ & Hsign & Hlt).
  - split; [simpl; lia | reflexivity].
  - split; [simpl; lia | reflexivity].
  - simpl. lia.
  - exists res. split; [exact E | split; [exact Hsign | exact Hlt]].
Defined.

Lemma setResult_round_trip_witness :
  let tv := {| sourceType := Some Examples.uint256;
               evaluatedValue := Some (Examples.int_const 7) |} in
  result 5 (setResult 5 (Some tv) Examples.fresh) = Some tv ∧
  result 5
    (setResult 5 (Some {| sourceType := Some BoolType; evaluatedValue := Some BoolType |})
       (setResult 5 (Some tv) Examples.fresh)) = Some tv.
Proof.
  intros tv.
  assert (storable tv) as Htv by (exists (Examples.int_const 7); split; reflexivity).
  destruct (setResult_round_trip 5 Examples.fresh) as (Hget & _ & Hkeep & _).
  split.
  - apply (Hget tv Htv).
  - apply (Hkeep tv _ Htv). intros tv' [= <-] (v & Hv & Hcat).
    simpl in Hv. injection Hv as <-. discriminate Hcat.
Defined.

Lemma fractional_memo_ok : memo_ok (m_evaluations Sessions.fractional).
Proof.
  intros n tv. unfold Sessions.fractional, construct. cbn [m_evaluations].
  destruct (decide (n = 2)) as [->|Hn2].
  { rewrite lookup_insert_eq. intros [= <-]. eexists. split; reflexivity. }
  rewrite lookup_insert_ne by congruence.
  destruct (decide (n = 3)) as [->|Hn3].
  { rewrite lookup_insert_eq. intros [= <-]. eexists. split; reflexivity. }
  rewrite lookup_insert_ne by congruence. rewrite lookup_empty. discriminate.
Qed.

Lemma evaluated_iff_value_witness :
  (evaluated 2 Sessions.fractional = true ↔ is_Some (lookupValue 2 Sessions.fractional)) ∧
  (evaluated 9 Sessions.fractional = false → lookupValue 9 Sessions.fractional = None).
Proof.
  split.
  - apply (evaluated_iff_value 2 Sessions.fractional fractional_memo_ok).
  - intros Hev.
    apply (evaluated_iff_value 9 Sessions.fractional fractional_memo_ok). exact Hev.
Defined.

Lemma evaluate_static_outcome_witness :
  let r := evaluate_static (H := Examples.literalTypes) Examples.constants 34
             [division_by_zero_diagnostic Examples.here] (Examples.a_op_b Mod) in
  [division_by_zero_diagnostic Examples.here] `prefix_of` m_errorReporter r.2 ∧
  m_depth r.2 = 0 ∧ r.1 ≠ OutOfFuel.
Proof.
  intros r.
  destruct (evaluate_static_outcome (H := Examples.literalTypes) Examples.constants 34
              [division_by_zero_diagnostic Examples.here] (Examples.a_op_b Mod))
    as (Hprefix & _ & _ & Hdepth & Hfuel).
  split; [exact Hprefix|]. split; [apply Hdepth; exact I | apply Hfuel; lia].
Defined.

Lemma constants_fold_end_to_end_witness :
  (evaluate (H := Examples.literalTypes) Examples.constants 2 (Examples.a_op_b Mul)
     Examples.fresh).1 = Returned (Some (Examples.int_const 0)) ∧
  (evaluate (H := Examples.literalTypes) Examples.constants 2 (Examples.a_op_b BitOr)
     Examples.fresh).1 = Returned (Some (Examples.int_const 7)).
Proof.
  split.
  - apply (constants_fold_end_to_end (H := Examples.literalTypes) Examples.constants
             0 1 Examples.here Mul 2 Examples.here 3 Examples.here 0 1
             10 Examples.here 11 Examples.here 7 0 0 Examples.uint256 Examples.uint256
             Examples.fresh); (reflexivity || (simpl; lia)).
  - apply (constants_fold_end_to_end (H := Examples.literalTypes) Examples.constants
             0 1 Examples.here BitOr 2 Examples.here 3 Examples.here 0 1
             10 Examples.here 11 Examples.here 7 0 7 Examples.uint256 Examples.uint256
             Examples.fresh); (reflexivity || (simpl; lia)).
Defined.

Lemma constants_are_typed : declarations_typed Examples.constants.
Proof.
  intros [|[|[|[|d]]]] value ty; simpl; intros [= _ <-]; eauto.
Qed.

Lemma evaluate_is_null_safe_witness :
  let r := evaluate (H := Examples.literalTypes) Examples.constants 34
             (Examples.a_op_b Div) Examples.fresh in
  r.1 ≠ NullDereference ∧ r.1 ≠ Thrown bad_optional_access.
Proof.
  intros r.
  destruct (evaluate_is_null_safe (H := Examples.literalTypes) Examples.constants 34
              (Examples.a_op_b Div) Examples.fresh) as (Hnull & Hopt & _).
  - exact constants_are_typed.
  - intros n tv. unfold Examples.fresh, construct. cbn [m_evaluations].
    rewrite lookup_empty. discriminate.
  - split; [exact Hnull | exact Hopt].
Defined.

Lemma fatal_diagnostic_iff_FatalError_witness :
  let r := evaluate (H := Examples.literalTypes) Examples.two_cycle 34
             (Identifier 1 Examples.here (Some 0)) Examples.fresh in
  ∃ l' d, m_errorReporter r.2 = l' ++ [d] ∧ recoverable_only l' ∧ severity d = Fatal.
Proof.
  intros r.
  destruct (fatal_diagnostic_iff_FatalError (H := Examples.literalTypes) Examples.two_cycle
              34 (Identifier 1 Examples.here (Some 0)) Examples.fresh)
    as (l & E & _ & Hfatal).
  destruct (Hfatal eq_refl) as (l' & d & -> & Hl' & Hd).
  exists l', d. split; [exact E | split; [exact Hl' | exact Hd]].
Defined.
